(** * The DOS data source of freeserf and the game object collection

    A shallow embedding of [src/data-source-dos.cc] (archive index,
    fixups, sprite decoders, [get_sprite_parts], the animation-table
    step of [load]) and of the [Collection] template of [src/objects.h],
    with the properties the specification states about them. *)

From Stdlib Require Import ZArith NArith List Lia Bool.
From Stdlib Require Import Strings.Byte.
From stdpp Require Import base option list gmap strings.

Local Open Scope nat_scope.

(** ** Results of running a C++ function

    A call either returns, leaves through an [ExceptionFreeserf] that
    nobody caught, or runs into undefined behaviour. *)

Inductive exception : Type :=
| ExtractSprite        (* "Failed to extract DOS sprite" *)
| ExtractSolidSprite   (* "Failed to extract DOS solid sprite" *)
| BufferRange          (* a Buffer read or range beyond its size *)
| SpriteMismatch.      (* separate_sprites on sprites of different size *)

Inductive fault : Type :=
| NullDereference      (* member call through a null PBuffer *)
| VectorRange          (* std::vector operator[] beyond size() *)
| PaletteRange         (* palette[p] with p beyond the 256 colours *)
| LoopBound.           (* the bound of a modelled loop was too small *)

Inductive outcome (A : Type) : Type :=
| Ok (a : A)
| Throw (e : exception)
| Undefined (f : fault).

Arguments Ok {A} a.
Arguments Throw {A} e.
Arguments Undefined {A} f.

#[export] Instance outcome_ret : MRet outcome := fun _ a => Ok a.

#[export] Instance outcome_bind : MBind outcome := fun _ _ k m =>
  match m with
  | Ok a => k a
  | Throw e => Throw e
  | Undefined f => Undefined f
  end.

(** [try { body } catch (...) { handler }]: an exception is caught,
    undefined behaviour is not. *)
Definition try_catch {A} (body : outcome A) (handler : outcome A) : outcome A :=
  match body with
  | Throw _ => handler
  | other => other
  end.

Definition returns {A} (m : outcome A) : Prop := exists a, m = Ok a.

(** ** Integers in a byte stream *)

Definition byte_val (b : byte) : N := Byte.to_N b.

(** Least significant byte first. *)
Fixpoint le_value (bs : list byte) : N :=
  match bs with
  | [] => 0
  | b :: rest => byte_val b + 256 * le_value rest
  end%N.

Inductive Endianess : Type := EndianessBig | EndianessLittle.

Definition decode_unsigned (e : Endianess) (bs : list byte) : N :=
  match e with
  | EndianessLittle => le_value bs
  | EndianessBig => le_value (rev bs)
  end.

(** Two's complement reading of a [bits]-wide value. *)
Definition to_signed (bits : N) (v : N) : Z :=
  if (v <? 2 ^ (bits - 1))%N then Z.of_N v else (Z.of_N v - 2 ^ Z.of_N bits)%Z.

Module DataSourceDOS.

(** ** Buffer *)

Record Buffer : Type := mkBuffer {
  data : list byte;        (* the bytes of the range *)
  unread : list byte;      (* the read pointer: the bytes from it to the end *)
  endianess : Endianess
}.

(** A buffer on [bytes] with the read pointer at the start. *)
Definition new_buffer (bytes : list byte) (e : Endianess) : Buffer :=
  {| data := bytes; unread := bytes; endianess := e |}.

(** Modelled from the spec: [Buffer::get_size] of the absent buffer
    class, the size of the whole range, whatever was read from it (the
    solid decoder compares it with width*height + 10 after the header
    was popped). *)
Definition get_size (b : Buffer) : nat := length (data b).

(** Modelled from the spec: [Buffer::readable] of the absent buffer
    class; input remains until the read pointer reaches the end. *)
Definition readable (b : Buffer) : bool :=
  match unread b with
  | [] => false
  | _ :: _ => true
  end.

(** The first [n] bytes of a list and the rest, if there are that many. *)
Fixpoint split_at (n : nat) (l : list byte) : option (list byte * list byte) :=
  match n, l with
  | 0, _ => Some ([], l)
  | S n', x :: l' =>
      match split_at n' l' with
      | Some (front, back) => Some (x :: front, back)
      | None => None
      end
  | S _, [] => None
  end.

(** Modelled from the spec: [Buffer::pop<T>] of the absent buffer class,
    for a [T] of [n] bytes.  Decoders must not read past the supplied
    byte range, a truncated stream raises an error. *)
Definition pop_bytes (n : nat) (b : Buffer) : outcome (list byte * Buffer) :=
  match split_at n (unread b) with
  | Some (bytes, rest) =>
      Ok (bytes, {| data := data b; unread := rest; endianess := endianess b |})
  | None => Throw BufferRange
  end.

Definition pop_unsigned (n : nat) (b : Buffer) : outcome (N * Buffer) :=
  '(bs, b') ← pop_bytes n b; Ok (decode_unsigned (endianess b) bs, b').

Definition pop_signed (n : nat) (b : Buffer) : outcome (Z * Buffer) :=
  '(v, b') ← pop_unsigned n b; Ok (to_signed (8 * N.of_nat n) v, b').

Definition pop_uint8 (b : Buffer) : outcome (byte * Buffer) :=
  '(bs, b') ← pop_bytes 1 b;
  match bs with
  | [x] => Ok (x, b')
  | _ => Throw BufferRange
  end.

Definition pop_int8 := pop_signed 1.
Definition pop_uint16 := pop_unsigned 2.
Definition pop_int16 := pop_signed 2.
Definition pop_uint32 := pop_unsigned 4.

Definition set_endianess (e : Endianess) (b : Buffer) : Buffer :=
  {| data := data b; unread := unread b; endianess := e |}.

(** Modelled from the spec: [Buffer::get_subbuffer] of the absent buffer
    class, the spec's [getRange]: it fails with an out-of-bounds error
    when [offset + size] exceeds the buffer length. *)
Definition get_subbuffer (b : Buffer) (off sz : nat) : outcome Buffer :=
  if decide (off + sz <= get_size b)
  then Ok (new_buffer (take sz (drop off (data b))) (endianess b))
  else Throw BufferRange.

(** Modelled from the spec: [Buffer::pop_tail] of the absent buffer
    class, the remainder after the read pointer as a buffer of its own. *)
Definition pop_tail (b : Buffer) : Buffer :=
  new_buffer (unread b) (endianess b).

(** ** The index table *)

Record DataEntry : Type := mkDataEntry {
  offset : N;     (* uint32_t *)
  size : N        (* uint32_t *)
}.

Record DataSource : Type := mkDataSource {
  spae : Buffer;
  entries : list DataEntry
}.

(** [DataSourceDOS::get_object]. *)
Definition get_object (ds : DataSource) (index : nat) : outcome (option Buffer) :=
  if decide (length (entries ds) <= index) then Ok None
  else match entries ds !! index with
       | None => Ok None
       | Some e =>
           if decide (offset e = 0%N) then Ok None
           else b ← get_subbuffer (spae ds) (N.to_nat (offset e)) (N.to_nat (size e));
                Ok (Some b)
       end.

(** [entries[dst] = entries[src]] on a [std::vector]: an index beyond
    the vector's size is undefined behaviour. *)
Definition assign (dst src : nat) (es : list DataEntry) : outcome (list DataEntry) :=
  match es !! src with
  | Some e => if decide (dst < length es) then Ok (<[dst := e]> es)
              else Undefined VectorRange
  | None => Undefined VectorRange
  end.

(** [for (int i = from; i < from + count; i++) body(i)] over a state. *)
Definition for_loop {S} (from count : nat) (body : nat -> S -> outcome S) (s : S)
  : outcome S :=
  foldl (fun acc i => s' ← acc; body i s') (Ok s) (seq from count).

(** [DataSourceDOS::fixup]. *)
Definition fixup (es : list DataEntry) : outcome (list DataEntry) :=
  es1 ← for_loop 0 48 (fun i =>
           for_loop 1 5 (fun j => assign (3450 + 6 * i + j) (3450 + 6 * i))) es;
  es2 ← for_loop 0 3 (fun i => assign (3765 + i) (3762 + i)) es1;
  for_loop 0 6 (fun i es' =>
      es'' ← assign (1363 + i) 1352 es';
      assign (1613 + i) 1602 es'') es2.


(** ** Sprites *)

Record Sprite : Type := mkSprite {
  delta_x : Z;
  delta_y : Z;
  width : N;
  height : N;
  offset_x : Z;
  offset_y : Z;
  sprite_data : list byte      (* four bytes per pixel *)
}.

Definition set_data (s : Sprite) (bytes : list byte) : Sprite :=
  {| delta_x := delta_x s; delta_y := delta_y s;
     width := width s; height := height s;
     offset_x := offset_x s; offset_y := offset_y s;
     sprite_data := bytes |}.

Record ColorDOS : Type := mkColorDOS { r : byte; g : byte; b : byte }.

(** Modelled from the spec: the declaration of [ColorDOS] is absent; a
    palette entry is the three bytes r, g, b. *)
Definition sizeof_ColorDOS : nat := 3.

(** The palette bytes seen as an array of [ColorDOS]. *)
Fixpoint colors_of (bs : list byte) : list ColorDOS :=
  match bs with
  | x :: y :: z :: rest => mkColorDOS x y z :: colors_of rest
  | _ => []
  end.

(** [palette[p]]: the array has 256 entries, beyond them the read is
    out of range. *)
Definition palette_at (palette : list ColorDOS) (p : N) : outcome ColorDOS :=
  match palette !! N.to_nat p with
  | Some c => Ok c
  | None => Undefined PaletteRange
  end.

(** [DataSourceDOS::get_dos_palette]. *)
Definition get_dos_palette (ds : DataSource) (index : nat)
  : outcome (option (list ColorDOS)) :=
  d ← get_object ds index;
  match d with
  | None => Ok None
  | Some d =>
      if decide (get_size d ≠ sizeof_ColorDOS * 256) then Ok None
      else Ok (Some (colors_of (data d)))
  end.

(** [SpriteBaseDOS::SpriteBaseDOS]: the ten byte header. *)
Definition SpriteBaseDOS (d : Buffer) : outcome (Sprite * Buffer) :=
  if decide (get_size d < 10) then Throw ExtractSprite
  else
    '(dx, d) ← pop_int8 d;
    '(dy, d) ← pop_int8 d;
    '(w, d) ← pop_uint16 d;
    '(h, d) ← pop_uint16 d;
    '(ox, d) ← pop_int16 d;
    '(oy, d) ← pop_int16 d;
    Ok ({| delta_x := dx; delta_y := dy; width := w; height := h;
           offset_x := ox; offset_y := oy; sprite_data := [] |}, d).

(** The four pushes of one pixel. *)
Definition push_pixel (result : list byte) (c : ColorDOS) (alpha : byte) : list byte :=
  result ++ [b c; g c; r c; alpha].

(** [result->push<uint32_t>(value, count)] for a value of four equal
    bytes. *)
Definition push_words (result : list byte) (x : byte) (count : N) : list byte :=
  result ++ repeat x (4 * N.to_nat count).

(** The [while (_data->readable())] loops run at most [fuel] times; each
    round pops at least one byte, so the number of unread bytes is
    enough (see [SpriteDosTransparent_bound] and [decoders_bound]). *)
Fixpoint solid_loop (fuel : nat) (palette : list ColorDOS) (d : Buffer)
    (result : list byte) : outcome (list byte) :=
  if readable d then
    match fuel with
    | 0 => Undefined LoopBound
    | S fuel' =>
        '(x, d) ← pop_uint8 d;
        color ← palette_at palette (byte_val x);
        solid_loop fuel' palette d (push_pixel result color xff)
    end
  else Ok result.

(** [SpriteDosSolid::SpriteDosSolid].  [width] and [height] hold 16-bit
    values, their product is taken without wrap-around. *)
Definition SpriteDosSolid (_data : Buffer) (palette : list ColorDOS) : outcome Sprite :=
  '(base, d) ← SpriteBaseDOS _data;
  if decide (N.of_nat (get_size d) ≠ (width base * height base + 10)%N)
  then Throw ExtractSolidSprite
  else
    result ← solid_loop (length (unread d)) palette d [];
    Ok (set_data base result).

(** The [for (size_t i = 0; i < fill; i++)] loop of the transparent
    decoder. *)
Fixpoint fill_loop (fill : nat) (color : N) (palette : list ColorDOS) (d : Buffer)
    (result : list byte) : outcome (Buffer * list byte) :=
  match fill with
  | 0 => Ok (d, result)
  | S fill' =>
      '(x, d) ← pop_uint8 d;
      let p_index := (byte_val x + color)%N in
      c ← palette_at palette p_index;
      fill_loop fill' color palette d (push_pixel result c xff)
  end.

Fixpoint transparent_loop (fuel : nat) (color : N) (palette : list ColorDOS)
    (d : Buffer) (result : list byte) : outcome (list byte) :=
  if readable d then
    match fuel with
    | 0 => Undefined LoopBound
    | S fuel' =>
        '(drop, d) ← pop_uint8 d;
        let result := push_words result x00 (byte_val drop) in
        '(fill, d) ← pop_uint8 d;
        '(d, result) ← fill_loop (N.to_nat (byte_val fill)) color palette d result;
        transparent_loop fuel' color palette d result
    end
  else Ok result.

(** [SpriteDosTransparent::SpriteDosTransparent]; [color] is a
    [uint8_t], 0 when the caller leaves it out. *)
Definition SpriteDosTransparent (_data : Buffer) (palette : list ColorDOS) (color : N)
  : outcome Sprite :=
  '(base, d) ← SpriteBaseDOS _data;
  result ← transparent_loop (length (unread d)) color palette d [];
  Ok (set_data base result).

Fixpoint overlay_fill (fill : nat) (palette : list ColorDOS) (value : byte)
    (result : list byte) : outcome (list byte) :=
  match fill with
  | 0 => Ok result
  | S fill' =>
      c ← palette_at palette (byte_val value);
      overlay_fill fill' palette value (push_pixel result c value)
  end.

Fixpoint overlay_loop (fuel : nat) (palette : list ColorDOS) (value : byte)
    (d : Buffer) (result : list byte) : outcome (list byte) :=
  if readable d then
    match fuel with
    | 0 => Undefined LoopBound
    | S fuel' =>
        '(drop, d) ← pop_uint8 d;
        let result := push_words result x00 (byte_val drop) in
        '(fill, d) ← pop_uint8 d;
        result ← overlay_fill (N.to_nat (byte_val fill)) palette value result;
        overlay_loop fuel' palette value d result
    end
  else Ok result.

(** [SpriteDosOverlay::SpriteDosOverlay]. *)
Definition SpriteDosOverlay (_data : Buffer) (palette : list ColorDOS) (value : byte)
  : outcome Sprite :=
  '(base, d) ← SpriteBaseDOS _data;
  result ← overlay_loop (length (unread d)) palette value d [];
  Ok (set_data base result).

Fixpoint mask_loop (fuel : nat) (d : Buffer) (result : list byte)
  : outcome (list byte) :=
  if readable d then
    match fuel with
    | 0 => Undefined LoopBound
    | S fuel' =>
        '(drop, d) ← pop_uint8 d;
        let result := push_words result x00 (byte_val drop) in
        '(fill, d) ← pop_uint8 d;
        let result := push_words result xff (byte_val fill) in
        mask_loop fuel' d result
    end
  else Ok result.

(** [SpriteDosMask::SpriteDosMask]. *)
Definition SpriteDosMask (_data : Buffer) : outcome Sprite :=
  '(base, d) ← SpriteBaseDOS _data;
  result ← mask_loop (length (unread d)) d [];
  Ok (set_data base result).


(** ** The resource table *)

(** [Data::Resource]; the enumerators follow the row comments of
    [dos_resources], which the enumeration indexes. *)
Inductive Resource : Type :=
| AssetNone | AssetArtLandscape | AssetAnimation | AssetSerfShadow
| AssetDottedLines | AssetArtFlag | AssetArtBox | AssetCreditsBg
| AssetLogo | AssetSymbol | AssetMapMaskUp | AssetMapMaskDown
| AssetPathMask | AssetMapGround | AssetPathGround | AssetGameObject
| AssetFrameTop | AssetMapBorder | AssetMapWaves | AssetFramePopup
| AssetIndicator | AssetFont | AssetFontShadow | AssetIcon
| AssetMapObject | AssetMapShadow | AssetPanelButton | AssetFrameBottom
| AssetSerfTorso | AssetSerfHead | AssetFrameSplit | AssetSound
| AssetMusic | AssetCursor | AssetPalette.

Inductive SpriteType : Type :=
| SpriteTypeUnknown | SpriteTypeSolid | SpriteTypeTransparent
| SpriteTypeOverlay | SpriteTypeMask.

Record DosResource : Type := mkResource {
  index : nat;
  dos_palette : nat;
  sprite_type : SpriteType
}.

Definition DATA_SERF_ANIMATION_TABLE : nat := 2.
Definition DATA_SERF_ARMS : nat := 1850.
Definition DATA_SFX_BASE : nat := 3900.
Definition DATA_MUSIC_GAME : nat := 3990.
Definition DATA_MUSIC_ENDING : nat := 3992.

Definition dos_resources (res : Resource) : DosResource :=
  match res with
  | AssetNone         => mkResource    0    0 SpriteTypeUnknown
  | AssetArtLandscape => mkResource    1 3997 SpriteTypeSolid
  | AssetAnimation    => mkResource    2    0 SpriteTypeUnknown
  | AssetSerfShadow   => mkResource    4    3 SpriteTypeOverlay
  | AssetDottedLines  => mkResource    5    3 SpriteTypeSolid
  | AssetArtFlag      => mkResource   15 3997 SpriteTypeSolid
  | AssetArtBox       => mkResource   25    3 SpriteTypeSolid
  | AssetCreditsBg    => mkResource   40 3998 SpriteTypeSolid
  | AssetLogo         => mkResource   41 3998 SpriteTypeSolid
  | AssetSymbol       => mkResource   42    3 SpriteTypeSolid
  | AssetMapMaskUp    => mkResource   60    3 SpriteTypeMask
  | AssetMapMaskDown  => mkResource  141    3 SpriteTypeMask
  | AssetPathMask     => mkResource  230    3 SpriteTypeMask
  | AssetMapGround    => mkResource  260    3 SpriteTypeSolid
  | AssetPathGround   => mkResource  300    3 SpriteTypeSolid
  | AssetGameObject   => mkResource  321    3 SpriteTypeTransparent
  | AssetFrameTop     => mkResource  600    3 SpriteTypeSolid
  | AssetMapBorder    => mkResource  610    3 SpriteTypeTransparent
  | AssetMapWaves     => mkResource  630    3 SpriteTypeTransparent
  | AssetFramePopup   => mkResource  660    3 SpriteTypeSolid
  | AssetIndicator    => mkResource  670    3 SpriteTypeSolid
  | AssetFont         => mkResource  750    3 SpriteTypeTransparent
  | AssetFontShadow   => mkResource  810    3 SpriteTypeTransparent
  | AssetIcon         => mkResource  870    3 SpriteTypeSolid
  | AssetMapObject    => mkResource 1250    3 SpriteTypeTransparent
  | AssetMapShadow    => mkResource 1500    3 SpriteTypeOverlay
  | AssetPanelButton  => mkResource 1750    3 SpriteTypeSolid
  | AssetFrameBottom  => mkResource 1780    3 SpriteTypeSolid
  | AssetSerfTorso    => mkResource 2500    3 SpriteTypeTransparent
  | AssetSerfHead     => mkResource 3150    3 SpriteTypeTransparent
  | AssetFrameSplit   => mkResource 3880    3 SpriteTypeSolid
  | AssetSound        => mkResource 3900    0 SpriteTypeUnknown
  | AssetMusic        => mkResource 3990    0 SpriteTypeUnknown
  | AssetCursor       => mkResource 3999    3 SpriteTypeTransparent
  | AssetPalette      => mkResource    3    0 SpriteTypeUnknown
  end.

(** ** get_sprite_parts *)

(** A [PSprite] inside the tuple that [separate_sprites] returns: an
    object of its own, or the first or the second argument again.  The
    serf-torso path changes the first argument after the call, which
    shows through such a pointer. *)
Inductive PSprite : Type :=
| Own (s : Sprite)
| First
| Second.

Definition deref (s1 s2 : Sprite) (p : PSprite) : Sprite :=
  match p with
  | Own s => s
  | First => s1
  | Second => s2
  end.

(** [Data::MaskImage], a tuple (mask, image) of possibly null sprites. *)
Definition MaskImage : Type := option Sprite * option Sprite.

Definition view (s1 s2 : Sprite) (mi : option PSprite * option PSprite) : MaskImage :=
  (deref s1 s2 <$> mi.1, deref s1 s2 <$> mi.2).

Section Facade.

(** Code of other files, taken as given. *)
Variable get_resource_count : Resource -> nat.
Variable separate_sprites :
  Sprite -> Sprite -> outcome (option PSprite * option PSprite).
Variable stick : Sprite -> Sprite -> nat -> nat -> Sprite.

Variable ds : DataSource.

(** The statements after the [if]/[else if] chain. *)
Definition decode_declared (res : Resource) (index : nat)
    (palette : list ColorDOS) : outcome MaskImage :=
  let dos_res := dos_resources res in
  data ← get_object ds (DataSourceDOS.index dos_res + index);
  match data with
  | None => Ok (None, None)
  | Some data =>
      match sprite_type dos_res with
      | SpriteTypeSolid =>
          sprite ← SpriteDosSolid data palette; Ok (None, Some sprite)
      | SpriteTypeTransparent =>
          sprite ← SpriteDosTransparent data palette 0; Ok (None, Some sprite)
      | SpriteTypeOverlay =>
          sprite ← SpriteDosOverlay data palette x80; Ok (None, Some sprite)
      | SpriteTypeMask =>
          sprite ← SpriteDosMask data; Ok (None, Some sprite)
      | SpriteTypeUnknown => Ok (None, None)
      end
  end.

(** [DataSourceDOS::get_sprite_parts]. *)
Definition get_sprite_parts (res : Resource) (index : nat) : outcome MaskImage :=
  if decide (get_resource_count res <= index) then Ok (None, None)
  else
    let dos_res := dos_resources res in
    palette ← get_dos_palette ds (dos_palette dos_res);
    match palette with
    | None => Ok (None, None)
    | Some palette =>
        match res with
        | AssetSerfTorso =>
            data ← get_object ds (DataSourceDOS.index dos_res + index);
            match data with
            | None => Ok (None, None)
            | Some data =>
                torso ← SpriteDosTransparent data palette 64;
                data ← get_object ds (DataSourceDOS.index dos_res + index);
                match data with
                | None => Ok (None, None)
                | Some data =>
                    torso2 ← SpriteDosTransparent data palette 72;
                    mi ← separate_sprites torso torso2;
                    data ← get_object ds (DATA_SERF_ARMS + index);
                    match data with
                    | None => Undefined NullDereference
                    | Some data =>
                        arms ← SpriteDosTransparent data palette 0;
                        let torso := stick torso arms 0 0 in
                        Ok (view torso torso2 mi)
                    end
                end
            end
        | AssetMapObject =>
            if decide (128 <= index /\ index <= 143) then
              let flag_frame := (index - 128) mod 4 in
              data ← get_object ds (DataSourceDOS.index dos_res + 128 + flag_frame);
              match data with
              | None => Ok (None, None)
              | Some data =>
                  s1 ← SpriteDosTransparent data palette 0;
                  data ← get_object ds
                           (DataSourceDOS.index dos_res + 128 + 4 + flag_frame);
                  match data with
                  | None => Ok (None, None)
                  | Some data =>
                      s2 ← SpriteDosTransparent data palette 0;
                      mi ← separate_sprites s1 s2;
                      Ok (view s1 s2 mi)
                  end
              end
            else decode_declared res index palette
        | AssetFont | AssetFontShadow =>
            data ← get_object ds (DataSourceDOS.index dos_res + index);
            match data with
            | None => Ok (None, None)
            | Some data =>
                sprite ← SpriteDosTransparent data palette 0;
                Ok (Some sprite, None)
            end
        | _ => decode_declared res index palette
        end
    end.

End Facade.

(** ** load *)

Section Load.

(** Code of other files, taken as given: [check()], the read of the
    file at [path], the TPWM unpacker and [load_animation_table]. *)
Variable check : bool.
Variable read_file : outcome Buffer.
Variable UnpackerTPWM : Buffer -> outcome Buffer.
Variable load_animation_table : Buffer -> bool.

(** The index table as [load] reads it: the count, the placeholder
    entry, then [size] and [offset] of every entry. *)
Definition read_entries (spae : Buffer) : outcome (Buffer * list DataEntry) :=
  '(entry_count, spae) ← pop_uint32 spae;
  for_loop 0 (N.to_nat entry_count) (fun i '(spae, entries) =>
      '(sz, spae) ← pop_uint32 spae;
      '(off, spae) ← pop_uint32 spae;
      Ok (spae, entries ++ [{| offset := off; size := sz |}]))
    (spae, [{| offset := 0; size := 0 |}]).

(** What [load] leaves behind: its return value, the data source and
    the buffer it handed to [load_animation_table]. *)
Record Loaded : Type := mkLoaded {
  loaded : bool;
  source : option DataSource;
  animation : option Buffer
}.

(** [DataSourceDOS::load]. *)
Definition load : outcome Loaded :=
  if negb check then Ok (mkLoaded false None None)
  else
    match read_file with
    | Throw _ => Ok (mkLoaded false None None)
    | Undefined f => Undefined f
    | Ok spae =>
        spae ← try_catch (UnpackerTPWM spae) (Ok spae);
        '(spae, entries) ← read_entries spae;
        entries ← fixup entries;
        let ds := {| spae := spae; entries := entries |} in
        anim ← get_object ds DATA_SERF_ANIMATION_TABLE;
        match anim with
        | None => Undefined NullDereference
        | Some anim =>
            let anim := set_endianess EndianessBig anim in
            let size := get_size anim in
            '(prefix, anim) ← pop_uint32 anim;
            if decide (N.of_nat size ≠ prefix)
            then Ok (mkLoaded false (Some ds) None)
            else
              let anim := pop_tail anim in
              Ok (mkLoaded (load_animation_table anim) (Some ds) (Some anim))
        end
    end.

End Load.

(** ** Auxiliary definitions for the proofs about fixup *)

(** A straight-line sequence of assignments [(dst, src)]. *)
Fixpoint run_moves (ms : list (nat * nat)) (es : list DataEntry)
  : outcome (list DataEntry) :=
  match ms with
  | [] => Ok es
  | (dst, src) :: rest => es' ← assign dst src es; run_moves rest es'
  end.

(** The position of the original table whose entry ends at position
    [k] once the assignments have run. *)
Fixpoint origin (ms : list (nat * nat)) (k : nat) : nat :=
  match ms with
  | [] => k
  | (dst, src) :: rest =>
      let m := origin rest k in if m =? dst then src else m
  end.

(** The same over binary numbers, for computing. *)
Fixpoint originN (ms : list (N * N)) (k : N) : N :=
  match ms with
  | [] => k
  | (dst, src) :: rest =>
      let m := originN rest k in if (m =? dst)%N then src else m
  end.

Definition to_nat_moves (ms : list (N * N)) : list (nat * nat) :=
  map (fun m => (N.to_nat m.1, N.to_nat m.2)) ms.

Definition fixup_movesN : list (N * N) :=
  (flat_map (fun i => map (fun j => (3450 + 6 * i + j, 3450 + 6 * i)) [1; 2; 3; 4; 5])
            (N.of_nat <$> seq 0 48)
   ++ flat_map (fun i => [(3765 + i, 3762 + i)]) [0; 1; 2]
   ++ flat_map (fun i => [(1363 + i, 1352); (1613 + i, 1602)]) [0; 1; 2; 3; 4; 5])%N.

(** Where the entries of the fixed-up positions come from. *)
Definition origins_ok : bool :=
  (forallb (fun i => forallb (fun j =>
      originN fixup_movesN (3450 + 6 * i + j) =? originN fixup_movesN (3450 + 6 * i))
      (N.of_nat <$> seq 1 5)) (N.of_nat <$> seq 0 48)
   && forallb (fun i => originN fixup_movesN (3765 + i) =? 3762 + i)
              (N.of_nat <$> seq 0 3)
   && forallb (fun i =>
        (originN fixup_movesN (1363 + i) =? originN fixup_movesN 1352)
        && (originN fixup_movesN (1613 + i) =? originN fixup_movesN 1602))
              (N.of_nat <$> seq 0 6))%N.

Definition moves_below (n : nat) (ms : list (nat * nat)) : bool :=
  forallb (fun m => (m.1 <? n) && (m.2 <? n)) ms.

(** The assignments of [fixup], in the order of its loops. *)
Definition fixup_moves : list (nat * nat) :=
  flat_map (fun i => map (fun j => (3450 + 6 * i + j, 3450 + 6 * i)) (seq 1 5))
           (seq 0 48)
  ++ flat_map (fun i => [(3765 + i, 3762 + i)]) (seq 0 3)
  ++ flat_map (fun i => [(1363 + i, 1352); (1613 + i, 1602)]) (seq 0 6).

(** ** Auxiliary definitions for the proofs about the decoders *)

(** The buffer after [n] more bytes were popped. *)
Definition advance (n : nat) (d : Buffer) : Buffer :=
  {| data := data d; unread := drop n (unread d); endianess := endianess d |}.

(** The unsigned field of [n] bytes at position [pos] of a buffer. *)
Definition field (d : Buffer) (pos n : nat) : N :=
  decode_unsigned (endianess d) (take n (drop pos (data d))).

Definition header_width (d : Buffer) : N := field d 2 2.
Definition header_height (d : Buffer) : N := field d 4 2.

(** The sprite that the header of a buffer describes, without pixels. *)
Definition header_sprite (d : Buffer) : Sprite :=
  {| delta_x := to_signed 8 (field d 0 1);
     delta_y := to_signed 8 (field d 1 1);
     width := header_width d;
     height := header_height d;
     offset_x := to_signed 16 (field d 6 2);
     offset_y := to_signed 16 (field d 8 2);
     sprite_data := [] |}.

(** The opaque pixel of the palette entry that a stream byte names. *)
Definition solid_pixel (palette : list ColorDOS) (x : byte) : list byte :=
  match palette !! N.to_nat (byte_val x) with
  | Some c => [b c; g c; r c; xff]
  | None => []
  end.

(** Streams of four byte pixels, each one all zero or the blue, green,
    red of a palette entry followed by alpha 255. *)
Inductive bgra_pixels (palette : list ColorDOS) : list byte -> Prop :=
| bgra_nil : bgra_pixels palette []
| bgra_transparent rest :
    bgra_pixels palette rest ->
    bgra_pixels palette (x00 :: x00 :: x00 :: x00 :: rest)
| bgra_opaque c rest :
    c ∈ palette ->
    bgra_pixels palette rest ->
    bgra_pixels palette (b c :: g c :: r c :: xff :: rest).

(** The archive index of the object that a request decodes first. *)
Definition first_object (res : Resource) (i : nat) : nat :=
  match res with
  | AssetMapObject =>
      if decide (128 <= i /\ i <= 143)
      then index (dos_resources res) + 128 + (i - 128) mod 4
      else index (dos_resources res) + i
  | _ => index (dos_resources res) + i
  end.

(** ** Example inputs *)

(** The byte with the given value. *)
Definition B (n : N) : byte :=
  match Byte.of_N n with
  | Some x => x
  | None => x00
  end.

Definition buffer_of (bytes : list N) : Buffer :=
  new_buffer (B <$> bytes) EndianessLittle.

(** A table of 3768 distinct entries. *)
Definition numbered_entries : list DataEntry :=
  (fun i => {| offset := N.of_nat i; size := 1 |}) <$> seq 0 3768.

(** A four byte archive whose entry 1 claims bytes 2 to 9. *)
Definition short_archive : DataSource :=
  {| spae := buffer_of [1; 2; 3; 4]%N;
     entries := [ {| offset := 0; size := 0 |}; {| offset := 2; size := 8 |} ] |}.

(** A palette of 256 different colours. *)
Definition example_palette : list ColorDOS :=
  (fun i => {| r := B (N.of_nat i); g := B (N.of_nat (255 - i)); b := B 7 |})
    <$> seq 0 256.

(** A solid sprite two pixels wide and one high, with the palette
    indexes 5 and 200. *)
Definition solid_example : Buffer :=
  buffer_of [1; 255; 2; 0; 1; 0; 3; 0; 4; 0; 5; 200]%N.

(** [example_palette] with the colour (10, 20, 30) at index 5. *)
Definition palette_5 : list ColorDOS :=
  <[5 := {| r := B 10; g := B 20; b := B 30 |}]> example_palette.

(** The header of a sprite three pixels wide and one high. *)
Definition header_3x1 : list byte := B <$> [0; 0; 3; 0; 1; 0; 0; 0; 0; 0]%N.

(** The bytes of a palette, three for each colour. *)
Definition palette_bytes (palette : list ColorDOS) : list byte :=
  flat_map (fun c => [r c; g c; b c]) palette.

(** A transparent sprite of one opaque pixel with palette index 5. *)
Definition one_pixel_sprite : list byte := header_3x1 ++ [x00; B 1; B 5].

(** An archive of one unused byte, a palette (at 1), the one pixel
    sprite (at 769) and a stump of two bytes (at 782).  Its index names
    the palette as entry 3, the sprite as the serf torso 0 (entry 2500)
    and as the flag frames 2 (entries 1380 and 1384), and the stump as
    the arms of torso 0 (entry 1850) and as dotted line 0 (entry 5). *)
Definition example_entry (i : nat) : DataEntry :=
  match N.of_nat i with
  | 3 => {| offset := 1; size := 768 |}
  | 5 | 1850 => {| offset := 782; size := 2 |}
  | 1380 | 1384 | 2500 => {| offset := 769; size := 13 |}
  | _ => {| offset := 0; size := 0 |}
  end%N.

Definition example_source : DataSource :=
  {| spae := new_buffer ([x00] ++ palette_bytes example_palette
                           ++ one_pixel_sprite ++ [B 1; B 2]) EndianessLittle;
     entries := example_entry <$> seq 0 2501 |}.

(** The stump and the sprite as [get_object] hands them out. *)
Definition stump : Buffer :=
  new_buffer [B 1; B 2] EndianessLittle.

Definition one_pixel : Buffer :=
  new_buffer one_pixel_sprite EndianessLittle.

(** [one_pixel] decoded with a colour offset: the pixel of palette
    entry 5 + offset. *)
Definition one_pixel_decoded (color : N) : Sprite :=
  {| delta_x := 0; delta_y := 0; width := 3; height := 1;
     offset_x := 0; offset_y := 0;
     sprite_data := [B 7; B (255 - (5 + color)); B (5 + color); xff] |}.

(** The sprite of a decode that returned. *)
Definition load_sprite (m : outcome Sprite) : option Sprite :=
  match m with
  | Ok s => Some s
  | _ => None
  end.

(** Stand-ins for the code of other files in the examples: every kind
    has 200 sprites, [separate_sprites] marks the differing bytes of
    sprites of one size and keeps the first sprite as the image, and
    [stick] takes over the deltas of the sticker. *)
Definition example_count (res : Resource) : nat := 200.

Definition example_separate (s1 s2 : Sprite)
  : outcome (option PSprite * option PSprite) :=
  if decide (width s1 = width s2 /\ height s1 = height s2)
  then Ok (Some (Own (set_data s1
                   (zip_with (fun x y => if Byte.eqb x y then x00 else xff)
                             (sprite_data s1) (sprite_data s2)))),
           Some First)
  else Throw SpriteMismatch.

Definition example_stick (base sticker : Sprite) (dx dy : nat) : Sprite :=
  {| delta_x := delta_x sticker; delta_y := delta_y sticker;
     width := width base; height := height base;
     offset_x := offset_x base; offset_y := offset_y base;
     sprite_data := sprite_data base |}.

(** A 32-bit number as [load] reads it from the index, least
    significant byte first. *)
Definition le32 (n : N) : list byte :=
  [B (n mod 256); B (n / 256 mod 256); B (n / 65536 mod 256);
   B (n / 16777216 mod 256)]%N.

(** An archive of 3767 index records, all of them empty but the one of
    the animation table (entry 2), which lies behind the index at offset
    4 + 8 * 3767 = 30140 and holds the bytes [table]. *)
Definition animation_archive (table : list N) : Buffer :=
  new_buffer (le32 3767
              ++ (le32 0 ++ le32 0)
              ++ (le32 (N.of_nat (length table)) ++ le32 30140)
              ++ repeat x00 (8 * 3765)
              ++ (B <$> table)) EndianessLittle.

(** [load] on an archive that is found, readable and not compressed,
    with an animation table that [load_animation_table] accepts. *)
Definition load_archive (archive : Buffer) : outcome Loaded :=
  load true (Ok archive) (fun _ => Throw BufferRange) (fun _ => true).

(** The return value of [load] and the animation table it extracted,
    when the call returns. *)
Definition load_result (l : outcome Loaded) : option (bool * option Buffer) :=
  match l with
  | Ok l => Some (loaded l, animation l)
  | _ => None
  end.

(** A table whose length prefix, 2, counts the bytes after the prefix,
    and one whose prefix, 6, counts the prefix as well. *)
Definition table_prefix_rest : list N := [0; 0; 0; 2; 170; 187]%N.
Definition table_prefix_whole : list N := [0; 0; 0; 6; 170; 187]%N.

(** ** Sounds and music *)

(** [size_t] arithmetic wraps around; [SIZE_MAX] is that of a build with
    a [size_t] of 64 bits. *)
Definition SIZE_MAX : N := 18446744073709551615.

Definition size_add (a b : N) : N := ((a + b) mod (SIZE_MAX + 1))%N.

(** [base + index] in [size_t], the argument that [get_sound] and
    [get_music] hand to [get_object]. *)
Definition clip_object (base : nat) (index : N) : nat :=
  N.to_nat (size_add (N.of_nat base) index).

Section Sounds.

(** Code of other files, taken as given: the conversions
    [ConvertorSFX2WAV(data, level).convert()] and
    [ConvertorXMI2MID(data).convert()]. *)
Variable ConvertorSFX2WAV : Buffer -> Z -> outcome Buffer.
Variable ConvertorXMI2MID : Buffer -> outcome Buffer.

Variable ds : DataSource.

(** [DataSourceDOS::get_sound]. *)
Definition get_sound (index : N) : outcome (option Buffer) :=
  data ← get_object ds (clip_object DATA_SFX_BASE index);
  match data with
  | None => Ok None
  | Some data =>
      try_catch (wav ← ConvertorSFX2WAV data (-32); Ok (Some wav)) (Ok None)
  end.

(** [DataSourceDOS::get_music]. *)
Definition get_music (index : N) : outcome (option Buffer) :=
  data ← get_object ds (clip_object DATA_MUSIC_GAME index);
  match data with
  | None => Ok None
  | Some data =>
      try_catch (mid ← ConvertorXMI2MID data; Ok (Some mid)) (Ok None)
  end.

End Sounds.

(** ** check *)

Section Check.

(** Code of another file, taken as given: whether a file is at a path. *)
Variable check_file : string -> bool.

Definition default_file_names : list string :=
  ["SPAE.PA"; "SPAF.PA"; "SPAD.PA"; "SPAU.PA"]%string.

(** The loop of [check] over the default file names. *)
Fixpoint check_defaults (path : string) (names : list string) : option string :=
  match names with
  | [] => None
  | file_name :: rest =>
      let file_path := String.append path (String.append "/" file_name) in
      if check_file file_path then Some file_path
      else check_defaults path rest
  end.

(** [DataSourceDOS::check]: the return value and the [path] member
    after the call. *)
Definition check (path : string) : bool * string :=
  if check_file path then (true, path)
  else match check_defaults path default_file_names with
       | Some file_path => (true, file_path)
       | None => (false, path)
       end.

End Check.

(** ** Writers, for the round trips *)

(** A 16-bit number, least significant byte first. *)
Definition le16 (n : N) : list byte := [B (n mod 256); B (n / 256 mod 256)]%N.

(** The [bits]-wide two's complement of a number. *)
Definition of_signed (bits : N) (z : Z) : N := Z.to_N (z mod 2 ^ Z.of_N bits).

(** The ten header bytes of a sprite, little-endian. *)
Definition encode_header (s : Sprite) : list byte :=
  [B (of_signed 8 (delta_x s)); B (of_signed 8 (delta_y s))]
  ++ le16 (width s) ++ le16 (height s)
  ++ le16 (of_signed 16 (offset_x s)) ++ le16 (of_signed 16 (offset_y s)).

(** The index records of a table, [size] before [offset], and the index
    with its count in front. *)
Definition encode_entries (es : list DataEntry) : list byte :=
  flat_map (fun e => le32 (size e) ++ le32 (offset e)) es.

Definition encode_index (es : list DataEntry) : list byte :=
  le32 (N.of_nat (length es)) ++ encode_entries es.

(** Run-length streams.  A run of the mask and overlay encodings is a
    drop count and a fill count; a run of the transparent encoding is a
    drop count and the palette indexes of the filled pixels. *)
Definition count_stream (runs : list (byte * byte)) : list byte :=
  flat_map (fun run => [run.1; run.2]) runs.

Definition transparent_stream (runs : list (byte * list byte)) : list byte :=
  flat_map (fun run => [run.1; B (N.of_nat (length run.2))] ++ run.2) runs.

(** The pixels the runs stand for. *)
Definition zero_pixels (count : byte) : list byte :=
  repeat x00 (4 * N.to_nat (byte_val count)).

Definition mask_pixels (runs : list (byte * byte)) : list byte :=
  flat_map (fun run => zero_pixels run.1
                       ++ repeat xff (4 * N.to_nat (byte_val run.2))) runs.

Definition overlay_pixels (c : ColorDOS) (value : byte) (runs : list (byte * byte))
  : list byte :=
  flat_map (fun run => zero_pixels run.1
                       ++ mjoin (repeat [b c; g c; r c; value]
                                        (N.to_nat (byte_val run.2)))) runs.

Definition offset_pixel (palette : list ColorDOS) (color : N) (x : byte) : list byte :=
  match palette !! N.to_nat (byte_val x + color) with
  | Some c => [b c; g c; r c; xff]
  | None => []
  end.

Definition transparent_pixels (palette : list ColorDOS) (color : N)
    (runs : list (byte * list byte)) : list byte :=
  flat_map (fun run => zero_pixels run.1
                       ++ flat_map (offset_pixel palette color) run.2) runs.

(** The positions that [fixup] writes. *)
Definition fixed_position (k : nat) : Prop :=
  (exists i j, i < 48 /\ 1 <= j < 6 /\ k = 3450 + 6 * i + j) \/
  3765 <= k <= 3767 \/ 1363 <= k <= 1368 \/ 1613 <= k <= 1618.

Definition fixed_positionN (k : N) : bool :=
  ((3450 <=? k) && (k <? 3738) && negb ((k - 3450) mod 6 =? 0)
   || (3765 <=? k) && (k <=? 3767)
   || (1363 <=? k) && (k <=? 1368)
   || (1613 <=? k) && (k <=? 1618))%N.

(** ** Side conditions and examples for the round trips *)

(** An index record holds 32-bit numbers. *)
Definition entry_fits (e : DataEntry) : Prop :=
  (offset e < 4294967296)%N /\ (size e < 4294967296)%N.

(** A sprite whose header fields fit the widths of the header. *)
Definition header_fits (s : Sprite) : Prop :=
  (-128 <= delta_x s < 128)%Z /\ (-128 <= delta_y s < 128)%Z /\
  (width s < 65536)%N /\ (height s < 65536)%N /\
  (-32768 <= offset_x s < 32768)%Z /\ (-32768 <= offset_y s < 32768)%Z.

(** A run of the transparent encoding whose fill count fits a byte and
    whose palette indexes, with the colour offset, are in the palette. *)
Definition run_fits (palette : list ColorDOS) (color : N) (run : byte * list byte)
  : Prop :=
  length run.2 < 256 /\
  Forall (fun x => N.to_nat (byte_val x + color) < length palette) run.2.

(** Every assignment of [fixup] writes a fixed position and reads a
    position that is not fixed. *)
Definition moves_shape : bool :=
  forallb (fun m => fixed_positionN m.1 && negb (fixed_positionN m.2)) fixup_movesN.

(** The result of a call that returned, and [numbered_entries] after
    [fixup]. *)
Definition returned {A : Type} (d : A) (m : outcome A) : A :=
  match m with
  | Ok a => a
  | _ => d
  end.

Definition fixed_entries : list DataEntry :=
  returned [] (fixup numbered_entries).

(** Two runs of the mask and overlay encodings, and two runs of the
    transparent encoding. *)
Definition example_runs : list (byte * byte) := [(B 2, B 1); (B 0, B 3)].

Definition example_fills : list (byte * list byte) :=
  [(B 2, [B 5]); (B 1, [B 0; B 255])].

(** The archive of [example_source] with another index: the one pixel
    sprite is the serf torso 0 (entry 2500) and the glyph 0 of the font
    (entry 750), and torso 0 has no arms (entry 1850 is empty). *)
Definition armless_entry (i : nat) : DataEntry :=
  match N.of_nat i with
  | 3 => {| offset := 1; size := 768 |}
  | 750 | 2500 => {| offset := 769; size := 13 |}
  | _ => {| offset := 0; size := 0 |}
  end%N.

Definition armless_source : DataSource :=
  {| spae := spae example_source;
     entries := armless_entry <$> seq 0 2501 |}.


(** A buffer of two runs behind the header of a sprite three pixels
    wide and one high: drop 2, fill 1, drop 0, fill 3. *)
Definition run_example : Buffer :=
  buffer_of [0; 0; 3; 0; 1; 0; 0; 0; 0; 0; 2; 1; 0; 3]%N.

(** An index of 3767 records, all of them empty but the second, the
    animation table, which lies behind the index at offset 30140 and is
    six bytes long. *)
Definition example_index : list DataEntry :=
  [ {| offset := 0; size := 0 |}; {| offset := 30140; size := 6 |} ]
  ++ repeat {| offset := 0; size := 0 |} 3765.

End DataSourceDOS.

(** ** Collection (objects.h) *)

Module Collection.

Definition UINT_MAX : N := 4294967295.

(** [unsigned int] arithmetic wraps around. *)
Definition incr (n : N) : N := ((n + 1) mod (UINT_MAX + 1))%N.
Definition decr (n : N) : N := if (n =? 0)%N then UINT_MAX else (n - 1)%N.

Section Elements.

(** The element type and its constructor [T(game, index)]. *)
Variable T : Type.
Variable new_T : N -> T.

Record Collection : Type := mkCollection {
  objects : gmap N T;
  last_object_index : N;
  free_object_indexes : gset N
}.

(** [Collection()]. *)
Definition empty_collection : Collection :=
  {| objects := ∅; last_object_index := 0; free_object_indexes := ∅ |}.

(** [*free_object_indexes.begin()]: the least element of a
    [std::set]. *)
Definition begin (s : gset N) : option N :=
  match elements s with
  | [] => None
  | x :: rest => Some (foldr N.min x rest)
  end.

(** [Collection::allocate]. *)
Definition allocate (c : Collection) : option T * Collection :=
  match begin (free_object_indexes c) with
  | Some new_index =>
      let new_object := new_T new_index in
      (Some new_object,
       {| objects := <[new_index := new_object]> (objects c);
          last_object_index := last_object_index c;
          free_object_indexes := free_object_indexes c ∖ {[new_index]} |})
  | None =>
      if decide (last_object_index c = UINT_MAX) then (None, c)
      else
        let new_index := last_object_index c in
        let new_object := new_T new_index in
        (Some new_object,
         {| objects := <[new_index := new_object]> (objects c);
            last_object_index := incr (last_object_index c);
            free_object_indexes := free_object_indexes c |})
  end.

(** [Collection::exists]. *)
Definition exists_ (c : Collection) (index : N) : bool :=
  bool_decide (is_Some (objects c !! index)).

(** The values of [i] in [for (unsigned int i = from; i < to; i++)]. *)
Definition indexes (from to : N) : list N :=
  N.of_nat <$> seq (N.to_nat from) (N.to_nat to - N.to_nat from).

(** [Collection::get_or_insert]. *)
Definition get_or_insert (index : N) (c : Collection) : T * Collection :=
  let '(object, objs, free) :=
    match objects c !! index with
    | Some object => (object, objects c, free_object_indexes c)
    | None =>
        let object := new_T index in
        (object, <[index := object]> (objects c),
         free_object_indexes c ∖ {[index]})
    end in
  if decide (last_object_index c <= index)%N then
    let free := foldl (fun free (i : N) => {[index]} ∪ free) free
                      (indexes (last_object_index c) index) in
    (object, {| objects := objs; last_object_index := incr index;
                free_object_indexes := free |})
  else
    (object, {| objects := objs; last_object_index := last_object_index c;
                free_object_indexes := free |}).

(** [Collection::erase]. *)
Definition erase (index : N) (c : Collection) : Collection :=
  match objects c !! index with
  | None => c
  | Some _ =>
      let objs := delete index (objects c) in
      if decide (index = last_object_index c) then
        {| objects := objs; last_object_index := decr (last_object_index c);
           free_object_indexes := free_object_indexes c |}
      else
        {| objects := objs; last_object_index := last_object_index c;
           free_object_indexes := {[index]} ∪ free_object_indexes c |}
  end.

(** The calls of the public interface that change a collection. *)
Inductive call : Type :=
| Allocate
| GetOrInsert (index : N)
| Erase (index : N).

Definition run_call (c : Collection) (op : call) : Collection :=
  match op with
  | Allocate => (allocate c).2
  | GetOrInsert index => (get_or_insert index c).2
  | Erase index => erase index c
  end.

Definition run_calls (ops : list call) : Collection :=
  foldl run_call empty_collection ops.

(** Every free index is below [last_object_index] and not in use. *)
Definition free_indexes_ok (c : Collection) : Prop :=
  forall i : N, i ∈ free_object_indexes c ->
    (i < last_object_index c)%N /\ objects c !! i = None.

(** [Collection::operator[]]. *)
Definition at_index (c : Collection) (index : N) : option T :=
  if exists_ c index then objects c !! index else None.

(** [Collection::size]. *)
Definition size (c : Collection) : nat := base.size (objects c).

(** A collection as [allocate] and [erase] keep it: the indexes below
    [last_object_index] are the live ones and the free ones, and no
    index is both. *)
Definition dense (c : Collection) : Prop :=
  (last_object_index c <= UINT_MAX)%N /\
  (forall i, is_Some (objects c !! i) -> (i < last_object_index c)%N) /\
  (forall i, i ∈ free_object_indexes c ->
             (i < last_object_index c)%N /\ objects c !! i = None) /\
  (forall i, (i < last_object_index c)%N ->
             is_Some (objects c !! i) \/ i ∈ free_object_indexes c).

(** A call that skips no index: [get_or_insert] at most at
    [last_object_index], and below [UINT_MAX]. *)
Definition skips_nothing (c : Collection) (op : call) : Prop :=
  match op with
  | GetOrInsert index => (index <= last_object_index c)%N /\ (index < UINT_MAX)%N
  | _ => True
  end.

Fixpoint skip_nothing (c : Collection) (ops : list call) : Prop :=
  match ops with
  | [] => True
  | op :: rest => skips_nothing c op /\ skip_nothing (run_call c op) rest
  end.

End Elements.

(** Example runs of the interface on collections of numbers, the
    object at an index being the index itself. *)
Definition example_calls : list call :=
  [Allocate; Allocate; Allocate; Erase 1].

Definition example_collection : Collection N :=
  run_calls N id example_calls.

Definition example_calls_mixed : list call :=
  [Allocate; Allocate; Erase 0; GetOrInsert 0; GetOrInsert 2].


End Collection.

(** * Properties *)

Import DataSourceDOS.

(** ** The outcome monad *)

(** Run the binds whose first part has returned. *)
Ltac ok_steps :=
  repeat (progress (change (Ok ?a ≫= ?k) with (k a); cbv beta iota)).

Lemma bind_Ok {A B} (m : outcome A) (k : A -> outcome B) (y : B) :
  m ≫= k = Ok y -> exists a, m = Ok a /\ k a = Ok y.
Proof. destruct m as [a| |]; try discriminate. intros H. exists a. auto. Qed.

Lemma bind_assoc {A B C} (m : outcome A) (k : A -> outcome B) (h : B -> outcome C) :
  (m ≫= k) ≫= h = m ≫= (fun a => k a ≫= h).
Proof. destruct m; reflexivity. Qed.

Lemma byte_val_lt (x : byte) : (byte_val x < 256)%N.
Proof. pose proof (Byte.to_N_bounded x). unfold byte_val. lia. Qed.

(** ** Loops as folds *)

Lemma foldl_bind {S} (body : nat -> S -> outcome S) (l : list nat) (m : outcome S) :
  foldl (fun acc i => s' ← acc; body i s') m l
  = m ≫= (fun s => foldl (fun acc i => s' ← acc; body i s') (Ok s) l).
Proof.
  revert m. induction l as [|i l IH]; intros m; simpl.
  - destruct m; reflexivity.
  - rewrite IH. destruct m as [a| |]; try reflexivity.
    change (Ok a ≫= body i) with (body i a).
    symmetry. apply IH.
Qed.

Lemma for_loop_0 {S} from (body : nat -> S -> outcome S) s :
  for_loop from 0 body s = Ok s.
Proof. reflexivity. Qed.

Lemma for_loop_S {S} from count (body : nat -> S -> outcome S) s :
  for_loop from (Datatypes.S count) body s
  = body from s ≫= for_loop (Datatypes.S from) count body.
Proof. unfold for_loop. simpl. rewrite foldl_bind. reflexivity. Qed.

Lemma run_moves_app ms1 ms2 es :
  run_moves (ms1 ++ ms2) es = run_moves ms1 es ≫= run_moves ms2.
Proof.
  revert es. induction ms1 as [|[d s] ms1 IH]; intros es; simpl; [reflexivity|].
  rewrite bind_assoc. destruct (assign d s es); simpl; auto.
Qed.

Lemma for_loop_moves (f : nat -> list (nat * nat)) count from es :
  for_loop from count (fun i => run_moves (f i)) es
  = run_moves (flat_map f (seq from count)) es.
Proof.
  revert from es. induction count as [|count IH]; intros from es.
  - reflexivity.
  - rewrite for_loop_S. simpl. rewrite run_moves_app.
    destruct (run_moves (f from) es); simpl; auto.
Qed.

Lemma for_loop_ext {S} (f h : nat -> S -> outcome S) count from s :
  (forall i s', f i s' = h i s') -> for_loop from count f s = for_loop from count h s.
Proof.
  intros E. revert from s. induction count as [|count IH]; intros from s.
  - reflexivity.
  - rewrite !for_loop_S, E. destruct (h from s); simpl; auto.
Qed.

Lemma flat_map_singleton {A B} (f : A -> B) (l : list A) :
  flat_map (fun x => [f x]) l = map f l.
Proof. induction l; simpl; congruence. Qed.

Lemma bind_Ok_r {A} (m : outcome A) : m ≫= Ok = m.
Proof. destruct m; reflexivity. Qed.

Lemma run_moves_one d s es : run_moves [(d, s)] es = assign d s es.
Proof. simpl. apply bind_Ok_r. Qed.

Lemma run_moves_two d1 s1 d2 s2 es :
  run_moves [(d1, s1); (d2, s2)] es = assign d1 s1 es ≫= assign d2 s2.
Proof.
  simpl. destruct (assign d1 s1 es); try reflexivity. simpl. apply bind_Ok_r.
Qed.

(** [fixup] is the straight-line run of its assignments. *)
Lemma fixup_moves_run es : fixup es = run_moves fixup_moves es.
Proof.
  unfold fixup, fixup_moves. rewrite !run_moves_app.
  rewrite <- !for_loop_moves.
  rewrite (for_loop_ext _
    (fun i => run_moves (map (fun j => (3450 + 6 * i + j, 3450 + 6 * i)) (seq 1 5)))).
  2:{ intros i s'. rewrite <- flat_map_singleton, <- for_loop_moves.
      apply for_loop_ext. intros j s''. symmetry. apply run_moves_one. }
  destruct (for_loop 0 48 _ es) as [es1| |]; try reflexivity.
  change (Ok es1 ≫= ?k) with (k es1). cbv beta.
  rewrite run_moves_app, <- !for_loop_moves.
  rewrite (for_loop_ext _ (fun x => run_moves [(3765 + x, 3762 + x)])).
  2:{ intros i s'. symmetry. apply run_moves_one. }
  destruct (for_loop 0 3 _ es1) as [es2| |]; try reflexivity.
  change (Ok es2 ≫= ?k) with (k es2). cbv beta.
  rewrite <- for_loop_moves.
  apply for_loop_ext. intros i s'. symmetry. apply run_moves_two.
Qed.

(** What a run of assignments leaves in the table. *)
Lemma run_moves_lookup ms : forall es,
  Forall (fun m => m.1 < length es /\ m.2 < length es) ms ->
  exists es', run_moves ms es = Ok es' /\ length es' = length es /\
              forall k, es' !! k = es !! origin ms k.
Proof.
  induction ms as [|[d s] ms IH]; intros es Hall.
  - exists es. simpl. auto.
  - inversion Hall as [|? ? [Hd Hs] Hrest]; subst. simpl in Hd, Hs.
    destruct (lookup_lt_is_Some_2 es s Hs) as [e He].
    simpl. unfold assign at 1. rewrite He.
    destruct (decide (d < length es)) as [_|]; [|lia].
    change (Ok ?x ≫= ?k) with (k x). cbv beta.
    destruct (IH (<[d := e]> es)) as (es' & Hrun & Hlen & Hlook).
    { rewrite length_insert. exact Hrest. }
    exists es'. rewrite length_insert in Hlen. repeat split; auto.
    intros k. rewrite Hlook.
    destruct (Nat.eqb_spec (origin ms k) d) as [->|Hne].
    + rewrite list_lookup_insert_eq by lia. auto.
    + rewrite list_lookup_insert_ne by auto. reflexivity.
Qed.

Lemma moves_below_Forall n ms (es : list DataEntry) :
  moves_below n ms = true -> n <= length es ->
  Forall (fun m => m.1 < length es /\ m.2 < length es) ms.
Proof.
  intros H Hn. apply Forall_forall. intros m Hm.
  unfold moves_below in H. rewrite forallb_forall in H.
  apply list_elem_of_In in Hm. specialize (H m Hm).
  apply andb_true_iff in H as [H1 H2].
  apply Nat.ltb_lt in H1, H2. lia.
Qed.

Lemma below_forallb (P : nat -> bool) n i :
  forallb P (seq 0 n) = true -> i < n -> P i = true.
Proof.
  intros H Hi. rewrite forallb_forall in H. apply H. apply in_seq. lia.
Qed.


(** ** The index table: fixup and get_object *)

Lemma fixup_origin es :
  3768 <= length es ->
  exists es', fixup es = Ok es' /\ length es' = length es /\
              forall k, es' !! k = es !! origin fixup_moves k.
Proof.
  intros Hlen. rewrite fixup_moves_run. apply run_moves_lookup.
  apply (moves_below_Forall 3768); [vm_compute; reflexivity | exact Hlen].
Qed.

Lemma fixup_moves_N : fixup_moves = to_nat_moves fixup_movesN.
Proof. apply (bool_decide_unpack _). vm_compute. exact I. Qed.

Lemma origin_N ms k :
  origin (to_nat_moves ms) (N.to_nat k) = N.to_nat (originN ms k).
Proof.
  induction ms as [|[d s] ms IH]; simpl; [reflexivity|].
  rewrite IH.
  destruct (N.eqb_spec (originN ms k) d) as [->|Hne].
  - rewrite Nat.eqb_refl. reflexivity.
  - destruct (Nat.eqb_spec (N.to_nat (originN ms k)) (N.to_nat d)) as [E|_].
    + apply N2Nat.inj in E. contradiction.
    + reflexivity.
Qed.

Lemma origins_ok_true : origins_ok = true.
Proof. vm_compute. reflexivity. Qed.

Lemma forallb_of_nat (P : N -> bool) from count i :
  forallb P (N.of_nat <$> seq from count) = true ->
  from <= i < from + count -> P (N.of_nat i) = true.
Proof.
  intros H Hi. rewrite forallb_forall in H. apply H.
  apply in_map, in_seq. exact Hi.
Qed.

Lemma origin_fixup (k : nat) (n : N) :
  N.of_nat k = n -> origin fixup_moves k = N.to_nat (originN fixup_movesN n).
Proof.
  intros <-. rewrite fixup_moves_N, <- origin_N, Nat2N.id. reflexivity.
Qed.

Lemma origin_blocks i j :
  i < 48 -> 1 <= j < 6 ->
  origin fixup_moves (3450 + 6 * i + j) = origin fixup_moves (3450 + 6 * i).
Proof.
  intros Hi Hj. pose proof origins_ok_true as H. unfold origins_ok in H.
  apply andb_true_iff in H as [H _]. apply andb_true_iff in H as [H _].
  apply (forallb_of_nat _ 0 48 i) in H; [|lia].
  apply (forallb_of_nat _ 1 5 j) in H; [|lia].
  apply N.eqb_eq in H.
  rewrite (origin_fixup (3450 + 6 * i + j) (3450 + 6 * N.of_nat i + N.of_nat j)) by lia.
  rewrite (origin_fixup (3450 + 6 * i) (3450 + 6 * N.of_nat i)) by lia.
  congruence.
Qed.

Lemma origin_copies i :
  i < 3 -> origin fixup_moves (3765 + i) = 3762 + i.
Proof.
  intros Hi. pose proof origins_ok_true as H. unfold origins_ok in H.
  apply andb_true_iff in H as [H _]. apply andb_true_iff in H as [_ H].
  apply (forallb_of_nat _ 0 3 i) in H; [|lia].
  apply N.eqb_eq in H.
  rewrite (origin_fixup (3765 + i) (3765 + N.of_nat i)) by lia.
  rewrite H. lia.
Qed.

Lemma origin_broadcast i :
  i < 6 ->
  origin fixup_moves (1363 + i) = origin fixup_moves 1352 /\
  origin fixup_moves (1613 + i) = origin fixup_moves 1602.
Proof.
  intros Hi. pose proof origins_ok_true as H. unfold origins_ok in H.
  apply andb_true_iff in H as [_ H].
  apply (forallb_of_nat _ 0 6 i) in H; [|lia].
  apply andb_true_iff in H as [H1 H2]. apply N.eqb_eq in H1, H2.
  rewrite (origin_fixup (1363 + i) (1363 + N.of_nat i)) by lia.
  rewrite (origin_fixup (1613 + i) (1613 + N.of_nat i)) by lia.
  rewrite (origin_fixup 1352 1352) by lia.
  rewrite (origin_fixup 1602 1602) by lia.
  split; congruence.
Qed.

(** C4: on a table that holds all the positions [fixup] touches
    (3768 entries or more), [fixup] returns a table of the same length
    in which every entry 3450+6i+j (i < 48, 1 <= j < 6) equals entry
    3450+6i, entry 3765+i (i < 3) is the entry 3762+i of the table
    before the call, and entries 1363+i and 1613+i (i < 6) equal
    entries 1352 and 1602. *)
Theorem fixup_entries (es : list DataEntry) :
  3768 <= length es ->
  exists es', fixup es = Ok es' /\ length es' = length es /\
    (forall i j, i < 48 -> 1 <= j < 6 ->
       es' !! (3450 + 6 * i + j) = es' !! (3450 + 6 * i)) /\
    (forall i, i < 3 -> es' !! (3765 + i) = es !! (3762 + i)) /\
    (forall i, i < 6 ->
       es' !! (1363 + i) = es' !! 1352 /\ es' !! (1613 + i) = es' !! 1602).
Proof.
  intros Hlen. destruct (fixup_origin es Hlen) as (es' & Hrun & Hl & Hlook).
  exists es'. split; [exact Hrun|]. split; [exact Hl|].
  split; [|split].
  - intros i j Hi Hj.
    rewrite (Hlook (3450 + 6 * i + j)), (Hlook (3450 + 6 * i)).
    rewrite (origin_blocks i j Hi Hj). reflexivity.
  - intros i Hi. rewrite (Hlook (3765 + i)), (origin_copies i Hi). reflexivity.
  - intros i Hi. destruct (origin_broadcast i Hi) as [E1 E2].
    rewrite (Hlook (1363 + i)), (Hlook 1352), (Hlook (1613 + i)), (Hlook 1602).
    rewrite E1, E2. split; reflexivity.
Qed.

(** [fixup] on a table of 3768 numbered entries. *)
Lemma fixup_entries_witness :
  3768 <= length numbered_entries /\
  exists es', fixup numbered_entries = Ok es' /\
    length es' = length numbered_entries /\
    (forall i j, i < 48 -> 1 <= j < 6 ->
       es' !! (3450 + 6 * i + j) = es' !! (3450 + 6 * i)) /\
    (forall i, i < 3 -> es' !! (3765 + i) = numbered_entries !! (3762 + i)) /\
    (forall i, i < 6 ->
       es' !! (1363 + i) = es' !! 1352 /\ es' !! (1613 + i) = es' !! 1602).
Proof.
  assert (H : 3768 <= length numbered_entries).
  { apply Nat.leb_le. vm_compute. reflexivity. }
  split; [exact H | exact (fixup_entries numbered_entries H)].
Defined.

Lemma get_object_bounds ds index :
  get_object ds index = Ok None <->
  (length (entries ds) <= index \/
   exists e, entries ds !! index = Some e /\ offset e = 0%N).
Proof.
  unfold get_object.
  destruct (decide (length (entries ds) <= index)) as [Hge|Hlt].
  - split; auto.
  - destruct (entries ds !! index) as [e|] eqn:He.
    + destruct (decide (offset e = 0%N)) as [H0|Hn0].
      * split; eauto.
      * split.
        -- unfold get_subbuffer. case_decide; discriminate.
        -- intros [Hge|(e' & [= <-] & H0)]; contradiction.
    + apply lookup_ge_None in He. lia.
Qed.

(** C7, as the code has it: [get_object] returns null exactly when the
    index is beyond the table or the entry's offset is 0; for any other
    entry it returns the range of the archive that starts at the
    entry's offset and has exactly the entry's size when that range
    lies inside the archive, and raises the range error of
    [get_subbuffer] when it does not. *)
Theorem get_object_spec (ds : DataSource) (index : nat) :
  (get_object ds index = Ok None <->
   (length (entries ds) <= index \/
    exists e, entries ds !! index = Some e /\ offset e = 0%N)) /\
  (forall e, entries ds !! index = Some e -> offset e <> 0%N ->
     if decide (N.to_nat (offset e) + N.to_nat (size e) <= get_size (spae ds))
     then exists range,
            get_object ds index = Ok (Some range) /\
            data range = take (N.to_nat (size e))
                              (drop (N.to_nat (offset e)) (data (spae ds))) /\
            get_size range = N.to_nat (size e) /\
            unread range = data range
     else get_object ds index = Throw BufferRange).
Proof.
  split; [apply get_object_bounds|].
  intros e He Hoff. unfold get_object.
  destruct (decide (length (entries ds) <= index)) as [Hge|_].
  { apply lookup_lt_Some in He. lia. }
  rewrite He. destruct (decide (offset e = 0%N)) as [|_]; [contradiction|].
  unfold get_subbuffer.
  destruct (decide (N.to_nat (offset e) + N.to_nat (size e) <= get_size (spae ds)))
    as [Hin|Hout]; [|reflexivity].
  eexists. split; [reflexivity|]. simpl. split; [reflexivity|]. split; [|reflexivity].
  unfold get_size in *. simpl. rewrite length_take, length_drop. lia.
Qed.

(** C7 as stated fails: entry 1 of [short_archive] has a nonzero offset,
    yet no range of its declared size 8 comes back, the call raises. *)
Lemma get_object_range_counterexample :
  entries short_archive !! 1 = Some {| offset := 2; size := 8 |} /\
  get_object short_archive 1 = Throw BufferRange /\
  ~ (exists range, get_object short_archive 1 = Ok (Some range) /\
                   get_size range = 8).
Proof.
  split; [reflexivity|]. split; [reflexivity|].
  intros (range & H & _). discriminate H.
Qed.

(** ** Reading from a buffer *)

Lemma split_at_ok n : forall l,
  n <= length l -> split_at n l = Some (take n l, drop n l).
Proof.
  induction n as [|n IH]; intros l Hn; [reflexivity|].
  destruct l as [|x l]; simpl in Hn; [lia|].
  simpl. rewrite IH by lia. reflexivity.
Qed.

Lemma split_at_short n : forall l, length l < n -> split_at n l = None.
Proof.
  induction n as [|n IH]; intros l Hn; [lia|].
  destruct l as [|x l]; [reflexivity|].
  simpl in *. rewrite IH by lia. reflexivity.
Qed.

Lemma advance_0 d : advance 0 d = d.
Proof. destruct d. reflexivity. Qed.

Lemma advance_advance n m d : advance n (advance m d) = advance (m + n) d.
Proof. unfold advance. simpl. rewrite drop_drop. reflexivity. Qed.

Lemma pop_bytes_ok n d :
  n <= length (unread d) ->
  pop_bytes n d = Ok (take n (unread d), advance n d).
Proof. intros H. unfold pop_bytes. rewrite split_at_ok by exact H. reflexivity. Qed.

Lemma pop_bytes_beyond n d :
  length (unread d) < n -> pop_bytes n d = Throw BufferRange.
Proof. intros H. unfold pop_bytes. rewrite split_at_short by exact H. reflexivity. Qed.

Lemma pop_unsigned_ok n d :
  n <= length (unread d) ->
  pop_unsigned n d
  = Ok (decode_unsigned (endianess d) (take n (unread d)), advance n d).
Proof. intros H. unfold pop_unsigned. rewrite pop_bytes_ok by exact H. reflexivity. Qed.

Lemma pop_signed_ok n d :
  n <= length (unread d) ->
  pop_signed n d
  = Ok (to_signed (8 * N.of_nat n)
          (decode_unsigned (endianess d) (take n (unread d))), advance n d).
Proof. intros H. unfold pop_signed. rewrite pop_unsigned_ok by exact H. reflexivity. Qed.

(** The same for a buffer with its read pointer at the start, after
    [k] bytes were read. *)
Lemma pop_unsigned_at k n d :
  unread d = data d -> k + n <= get_size d ->
  pop_unsigned n (advance k d) = Ok (field d k n, advance (k + n) d).
Proof.
  intros Hfresh Hk. rewrite pop_unsigned_ok, advance_advance.
  - unfold field. simpl. rewrite Hfresh. reflexivity.
  - simpl. rewrite Hfresh, length_drop. unfold get_size in Hk. lia.
Qed.

Lemma pop_signed_at k n d :
  unread d = data d -> k + n <= get_size d ->
  pop_signed n (advance k d)
  = Ok (to_signed (8 * N.of_nat n) (field d k n), advance (k + n) d).
Proof.
  intros Hfresh Hk. unfold pop_signed.
  rewrite pop_unsigned_at by assumption. reflexivity.
Qed.

Lemma pop_uint8_ok d x rest :
  unread d = x :: rest -> pop_uint8 d = Ok (x, advance 1 d).
Proof.
  intros Hx. unfold pop_uint8.
  rewrite pop_bytes_ok by (rewrite Hx; simpl; lia).
  rewrite Hx. reflexivity.
Qed.

Lemma pop_uint8_beyond d : unread d = [] -> pop_uint8 d = Throw BufferRange.
Proof.
  intros H. unfold pop_uint8. rewrite pop_bytes_beyond by (rewrite H; simpl; lia).
  reflexivity.
Qed.

Lemma readable_unread d :
  readable d = true -> exists x rest, unread d = x :: rest.
Proof. unfold readable. destruct (unread d) as [|x rest]; [discriminate|eauto]. Qed.

Lemma not_readable_unread d : readable d = false -> unread d = [].
Proof. unfold readable. destruct (unread d); [reflexivity|discriminate]. Qed.

(** ** The sprite header *)

Lemma SpriteBaseDOS_short d :
  get_size d < 10 -> SpriteBaseDOS d = Throw ExtractSprite.
Proof. intros H. unfold SpriteBaseDOS. rewrite decide_True by exact H. reflexivity. Qed.

Lemma SpriteBaseDOS_ok d :
  unread d = data d -> 10 <= get_size d ->
  SpriteBaseDOS d = Ok (header_sprite d, advance 10 d).
Proof.
  intros Hfresh Hs. unfold SpriteBaseDOS. rewrite decide_False by lia.
  unfold pop_int8, pop_uint16, pop_int16.
  rewrite <- (advance_0 d) at 1.
  rewrite (pop_signed_at 0 1) by (assumption || lia). ok_steps.
  rewrite (pop_signed_at 1 1) by (assumption || lia). ok_steps.
  rewrite (pop_unsigned_at 2 2) by (assumption || lia). ok_steps.
  rewrite (pop_unsigned_at 4 2) by (assumption || lia). ok_steps.
  rewrite (pop_signed_at 6 2) by (assumption || lia). ok_steps.
  rewrite (pop_signed_at 8 2) by (assumption || lia). ok_steps.
  reflexivity.
Qed.

(** ** The solid decoder *)

Lemma palette_at_byte (palette : list ColorDOS) x :
  length palette = 256 ->
  exists c, palette !! N.to_nat (byte_val x) = Some c /\
            palette_at palette (byte_val x) = Ok c.
Proof.
  intros Hlen. pose proof (byte_val_lt x) as Hx.
  destruct (lookup_lt_is_Some_2 palette (N.to_nat (byte_val x))) as [c Hc]; [lia|].
  exists c. unfold palette_at. rewrite Hc. auto.
Qed.

Lemma solid_loop_unfold fuel palette d result :
  solid_loop fuel palette d result =
  if readable d then
    match fuel with
    | 0 => Undefined LoopBound
    | S fuel' =>
        '(x, d) ← pop_uint8 d;
        color ← palette_at palette (byte_val x);
        solid_loop fuel' palette d (push_pixel result color xff)
    end
  else Ok result.
Proof. destruct fuel; reflexivity. Qed.

(** With the size of the buffer as bound the loop of the solid decoder
    runs to the end of the input and maps every byte to one pixel. *)
Lemma solid_loop_run (palette : list ColorDOS) :
  length palette = 256 ->
  forall fuel d result,
    length (unread d) <= fuel ->
    solid_loop fuel palette d result
    = Ok (result ++ flat_map (solid_pixel palette) (unread d)).
Proof.
  intros Hpal. induction fuel as [|fuel IH]; intros d result Hfuel;
    rewrite solid_loop_unfold; destruct (readable d) eqn:Hread.
  - apply readable_unread in Hread as (x & rest & Hx).
    rewrite Hx in Hfuel. simpl in Hfuel. lia.
  - apply not_readable_unread in Hread. rewrite Hread. simpl.
    rewrite app_nil_r. reflexivity.
  - apply readable_unread in Hread as (x & rest & Hx).
    rewrite (pop_uint8_ok d x rest Hx). ok_steps.
    destruct (palette_at_byte palette x Hpal) as (c & Hc & Hat).
    rewrite Hat. ok_steps.
    rewrite IH by (simpl; rewrite length_drop; lia).
    simpl unread. rewrite Hx. rewrite skipn_cons, drop_0. simpl.
    unfold push_pixel, solid_pixel at 2. rewrite Hc, <- app_assoc. reflexivity.
  - apply not_readable_unread in Hread. rewrite Hread. simpl.
    rewrite app_nil_r. reflexivity.
Qed.

Lemma solid_pixel_length (palette : list ColorDOS) x :
  length palette = 256 -> length (solid_pixel palette x) = 4.
Proof.
  intros Hpal. destruct (palette_at_byte palette x Hpal) as (c & Hc & _).
  unfold solid_pixel. rewrite Hc. reflexivity.
Qed.

Lemma solid_pixels_length (palette : list ColorDOS) bytes :
  length palette = 256 ->
  length (flat_map (solid_pixel palette) bytes) = 4 * length bytes.
Proof.
  intros Hpal. induction bytes as [|x bytes IH]; [reflexivity|].
  simpl flat_map. rewrite length_app, IH, solid_pixel_length by exact Hpal.
  simpl length. lia.
Qed.

(** Pixel [k] of a solid body is the palette entry that byte [k] of the
    body names, in the order blue, green, red, and it is opaque. *)
Lemma solid_pixels_lookup (palette : list ColorDOS) bytes k x :
  length palette = 256 ->
  bytes !! k = Some x ->
  exists c, palette !! N.to_nat (byte_val x) = Some c /\
    take 4 (drop (4 * k) (flat_map (solid_pixel palette) bytes))
    = [b c; g c; r c; xff].
Proof.
  intros Hpal. revert k. induction bytes as [|y bytes IH]; intros k Hk.
  - discriminate Hk.
  - destruct k as [|k].
    + injection Hk as ->.
      destruct (palette_at_byte palette x Hpal) as (c & Hc & _).
      exists c. split; [exact Hc|].
      simpl flat_map. unfold solid_pixel at 1. rewrite Hc. reflexivity.
    + destruct (IH k Hk) as (c & Hc & Htake).
      exists c. split; [exact Hc|].
      simpl flat_map.
      pose proof (solid_pixel_length palette y Hpal) as Hy.
      rewrite drop_app_ge by lia. rewrite Hy.
      replace (4 * S k - 4) with (4 * k) by lia. exact Htake.
Qed.

(** C5: a solid sprite whose buffer size differs from width*height + 10
    fails to decode; otherwise every byte after the header is taken as
    one palette index and becomes one opaque pixel, so that exactly
    width*height pixels (four bytes each, alpha 255) come out. *)
Theorem SpriteDosSolid_spec (d : Buffer) (palette : list ColorDOS) :
  unread d = data d -> length palette = 256 ->
  (N.of_nat (get_size d) <> (header_width d * header_height d + 10)%N ->
     SpriteDosSolid d palette
     = Throw (if decide (get_size d < 10) then ExtractSprite else ExtractSolidSprite)) /\
  (N.of_nat (get_size d) = (header_width d * header_height d + 10)%N ->
     exists s, SpriteDosSolid d palette = Ok s /\
       width s = header_width d /\ height s = header_height d /\
       sprite_data s = flat_map (solid_pixel palette) (drop 10 (data d)) /\
       length (sprite_data s) = 4 * N.to_nat (width s * height s) /\
       forall k x, drop 10 (data d) !! k = Some x ->
         exists c, palette !! N.to_nat (byte_val x) = Some c /\
           take 4 (drop (4 * k) (sprite_data s)) = [b c; g c; r c; xff]).
Proof.
  intros Hread Hpal. unfold SpriteDosSolid. split.
  - intros Hsize. destruct (decide (get_size d < 10)) as [Hshort|Hlong].
    + rewrite SpriteBaseDOS_short by exact Hshort. reflexivity.
    + rewrite SpriteBaseDOS_ok by (assumption || lia).
      change (Ok ?a ≫= ?k) with (k a). cbv beta iota.
      rewrite decide_True by exact Hsize. reflexivity.
  - intros Hsize.
    assert (Hlong : 10 <= get_size d) by lia.
    rewrite SpriteBaseDOS_ok by (assumption || lia).
    change (Ok ?a ≫= ?k) with (k a). cbv beta iota.
    rewrite decide_False by (intros Hne; apply Hne; exact Hsize).
    rewrite (solid_loop_run palette Hpal) by lia.
    change (Ok ?a ≫= ?k) with (k a). cbv beta.
    eexists. split; [reflexivity|].
    simpl. rewrite Hread.
    split; [reflexivity|]. split; [reflexivity|]. split; [reflexivity|].
    split.
    + rewrite solid_pixels_length by exact Hpal.
      rewrite length_drop. unfold get_size in Hsize. lia.
    + intros k x Hk. apply solid_pixels_lookup; assumption.
Qed.

(** The two pixel sprite [solid_example] decodes to its two colours. *)
Lemma SpriteDosSolid_spec_witness :
  unread solid_example = data solid_example /\ length example_palette = 256 /\
  exists s, SpriteDosSolid solid_example example_palette = Ok s /\
    width s = 2%N /\ height s = 1%N /\
    sprite_data s = [B 7; B 250; B 5; xff; B 7; B 55; B 200; xff].
Proof.
  split; [reflexivity|]. split; [reflexivity|].
  destruct (SpriteDosSolid_spec solid_example example_palette eq_refl eq_refl)
    as [_ H].
  destruct (H eq_refl) as (s & Hs & Hw & Hh & Hdata & _).
  exists s. split; [exact Hs|]. split; [exact Hw|]. split; [exact Hh|].
  rewrite Hdata. reflexivity.
Defined.

(** ** The transparent decoder *)

Lemma pop_uint8_inv d x d' :
  pop_uint8 d = Ok (x, d') ->
  (exists rest, unread d = x :: rest) /\ d' = advance 1 d.
Proof.
  intros H. destruct (unread d) as [|y rest] eqn:Hy.
  - rewrite pop_uint8_beyond in H by exact Hy. discriminate H.
  - rewrite (pop_uint8_ok d y rest Hy) in H. injection H as -> ->. eauto.
Qed.

Lemma pop_uint8_defined d f : pop_uint8 d <> Undefined f.
Proof.
  destruct (unread d) as [|y rest] eqn:Hy.
  - rewrite pop_uint8_beyond by exact Hy. discriminate.
  - rewrite (pop_uint8_ok d y rest Hy). discriminate.
Qed.

Lemma palette_at_inv (palette : list ColorDOS) p c :
  palette_at palette p = Ok c -> c ∈ palette.
Proof.
  unfold palette_at. destruct (palette !! N.to_nat p) as [c'|] eqn:E; [|discriminate].
  intros [= <-]. apply list_elem_of_lookup. eauto.
Qed.

Lemma palette_at_fault (palette : list ColorDOS) p f :
  palette_at palette p = Undefined f -> f = PaletteRange.
Proof.
  unfold palette_at. destruct (palette !! N.to_nat p); [discriminate|].
  intros [= <-]. reflexivity.
Qed.

Lemma bgra_app palette l1 l2 :
  bgra_pixels palette l1 -> bgra_pixels palette l2 -> bgra_pixels palette (l1 ++ l2).
Proof.
  intros H1 H2. induction H1; simpl; [exact H2 | |]; constructor; auto.
Qed.


Lemma bgra_push palette result c :
  bgra_pixels palette result -> c ∈ palette ->
  bgra_pixels palette (push_pixel result c xff).
Proof.
  intros H Hc. unfold push_pixel. apply bgra_app; [exact H|].
  constructor; [exact Hc | constructor].
Qed.

Lemma fill_loop_inv palette color : forall fill d result d' result',
  fill_loop fill color palette d result = Ok (d', result') ->
  d' = advance fill d /\
  (bgra_pixels palette result -> bgra_pixels palette result').
Proof.
  induction fill as [|fill IH]; intros d result d' result' H; simpl in H.
  - injection H as <- <-. split; [|auto].
    symmetry. apply advance_0.
  - apply bind_Ok in H as ([x d1] & Hpop & H).
    apply pop_uint8_inv in Hpop as [_ ->].
    apply bind_Ok in H as (c & Hc & H).
    apply IH in H as [-> Hb]. split.
    + rewrite advance_advance. reflexivity.
    + intros Hr. apply Hb, bgra_push; [exact Hr|].
      apply palette_at_inv in Hc. exact Hc.
Qed.

Lemma fill_loop_fault palette color : forall fill d result f,
  fill_loop fill color palette d result = Undefined f -> f = PaletteRange.
Proof.
  induction fill as [|fill IH]; intros d result f H; simpl in H; [discriminate|].
  destruct (pop_uint8 d) as [[x d1]| |] eqn:Hpop; try discriminate.
  - change (Ok (x, d1) ≫= ?k) with (k (x, d1)) in H. cbv beta iota in H.
    destruct (palette_at palette (byte_val x + color)) as [c| |] eqn:Hc;
      try discriminate.
    + apply IH in H. exact H.
    + injection H as <-. apply palette_at_fault in Hc. exact Hc.
  - exfalso. apply (pop_uint8_defined d f0). exact Hpop.
Qed.

Lemma transparent_loop_unfold fuel color palette d result :
  transparent_loop fuel color palette d result =
  if readable d then
    match fuel with
    | 0 => Undefined LoopBound
    | S fuel' =>
        '(drop, d) ← pop_uint8 d;
        let result := push_words result x00 (byte_val drop) in
        '(fill, d) ← pop_uint8 d;
        '(d, result) ← fill_loop (N.to_nat (byte_val fill)) color palette d result;
        transparent_loop fuel' color palette d result
    end
  else Ok result.
Proof. destruct fuel; reflexivity. Qed.

(** The bound that [SpriteDosTransparent] gives its loop is never
    reached: every round pops a byte. *)
Lemma transparent_loop_bound color palette : forall fuel d result,
  length (unread d) <= fuel ->
  transparent_loop fuel color palette d result <> Undefined LoopBound.
Proof.
  induction fuel as [|fuel IH]; intros d result Hfuel;
    rewrite transparent_loop_unfold; destruct (readable d) eqn:Hread;
    try discriminate.
  - apply readable_unread in Hread as (x & rest & Hx).
    rewrite Hx in Hfuel. simpl in Hfuel. lia.
  - apply readable_unread in Hread as (x0 & rest0 & Hx0).
    destruct (pop_uint8 d) as [[x d1]| |] eqn:Hpop1; try discriminate.
    2:{ exfalso. apply (pop_uint8_defined d f). exact Hpop1. }
    apply pop_uint8_inv in Hpop1 as [_ ->].
    change (Ok ?a ≫= ?k) with (k a). cbv beta iota zeta.
    destruct (pop_uint8 (advance 1 d)) as [[y d2]| |] eqn:Hpop2; try discriminate.
    2:{ exfalso. apply (pop_uint8_defined (advance 1 d) f). exact Hpop2. }
    apply pop_uint8_inv in Hpop2 as [_ ->].
    change (Ok ?a ≫= ?k) with (k a). cbv beta iota.
    destruct (fill_loop _ _ _ _ _) as [[d3 result3]| |] eqn:Hfill; try discriminate.
    + apply fill_loop_inv in Hfill as [-> _].
      change (Ok ?a ≫= ?k) with (k a). cbv beta iota.
      apply IH. simpl. rewrite !length_drop. rewrite Hx0 in *. simpl in *. lia.
    + apply fill_loop_fault in Hfill. subst f. discriminate.
Qed.



Lemma pop_unsigned_defined n d f : pop_unsigned n d <> Undefined f.
Proof.
  unfold pop_unsigned, pop_bytes.
  destruct (split_at n (unread d)) as [[bytes rest]|]; discriminate.
Qed.

Lemma pop_signed_defined n d f : pop_signed n d <> Undefined f.
Proof.
  unfold pop_signed. pose proof (pop_unsigned_defined n d f) as H.
  destruct (pop_unsigned n d) as [[v d']| |]; try discriminate.
  intros [= ->]. apply H. reflexivity.
Qed.

Lemma SpriteBaseDOS_defined d f : SpriteBaseDOS d <> Undefined f.
Proof.
  unfold SpriteBaseDOS. case_decide; [discriminate|].
  unfold pop_int8, pop_uint16, pop_int16.
  repeat match goal with
  | |- context [pop_signed ?n ?x] =>
      let H := fresh "H" in
      pose proof (pop_signed_defined n x f) as H;
      destruct (pop_signed n x) as [[? ?]| |]; [ok_steps; clear H | discriminate |];
      [|intros [= ->]; apply H; reflexivity]
  | |- context [pop_unsigned ?n ?x] =>
      let H := fresh "H" in
      pose proof (pop_unsigned_defined n x f) as H;
      destruct (pop_unsigned n x) as [[? ?]| |]; [ok_steps; clear H | discriminate |];
      [|intros [= ->]; apply H; reflexivity]
  end.
  discriminate.
Qed.

(** The transparent decoder never stops for lack of loop rounds. *)
Lemma SpriteDosTransparent_bound d palette color :
  SpriteDosTransparent d palette color <> Undefined LoopBound.
Proof.
  unfold SpriteDosTransparent.
  destruct (SpriteBaseDOS d) as [[base d1]| |] eqn:Hbase; try discriminate.
  - change (Ok ?a ≫= ?k) with (k a). cbv beta iota.
    pose proof (transparent_loop_bound color palette (length (unread d1)) d1 [])
      as Hb.
    destruct (transparent_loop _ _ _ _ _) as [result| |]; try discriminate.
    intros [= ->]. apply Hb; [lia | reflexivity].
  - exfalso. apply (SpriteBaseDOS_defined d f). exact Hbase.
Qed.

(** ** The loop bounds of the other decoders *)

Lemma solid_loop_bound palette : forall fuel d result,
  length (unread d) <= fuel ->
  solid_loop fuel palette d result <> Undefined LoopBound.
Proof.
  induction fuel as [|fuel IH]; intros d result Hfuel;
    rewrite solid_loop_unfold; destruct (readable d) eqn:Hread;
    try discriminate.
  - apply readable_unread in Hread as (x & rest & Hx).
    rewrite Hx in Hfuel. simpl in Hfuel. lia.
  - destruct (pop_uint8 d) as [[x d1]| |] eqn:Hpop; try discriminate.
    2:{ exfalso. apply (pop_uint8_defined d f). exact Hpop. }
    apply pop_uint8_inv in Hpop as [[rest Hx] ->]. ok_steps.
    destruct (palette_at palette (byte_val x)) as [c| |] eqn:Hc; try discriminate.
    + ok_steps. apply IH. simpl. rewrite length_drop. lia.
    + apply palette_at_fault in Hc. subst f. discriminate.
Qed.

Lemma overlay_fill_fault palette value : forall fill result f,
  overlay_fill fill palette value result = Undefined f -> f = PaletteRange.
Proof.
  induction fill as [|fill IH]; intros result f H; simpl in H; [discriminate|].
  destruct (palette_at palette (byte_val value)) as [c| |] eqn:Hc; try discriminate.
  - apply IH in H. exact H.
  - injection H as <-. apply palette_at_fault in Hc. exact Hc.
Qed.

Lemma overlay_loop_unfold fuel palette value d result :
  overlay_loop fuel palette value d result =
  if readable d then
    match fuel with
    | 0 => Undefined LoopBound
    | S fuel' =>
        '(drop, d) ← pop_uint8 d;
        let result := push_words result x00 (byte_val drop) in
        '(fill, d) ← pop_uint8 d;
        result ← overlay_fill (N.to_nat (byte_val fill)) palette value result;
        overlay_loop fuel' palette value d result
    end
  else Ok result.
Proof. destruct fuel; reflexivity. Qed.

Lemma overlay_loop_bound palette value : forall fuel d result,
  length (unread d) <= fuel ->
  overlay_loop fuel palette value d result <> Undefined LoopBound.
Proof.
  induction fuel as [|fuel IH]; intros d result Hfuel;
    rewrite overlay_loop_unfold; destruct (readable d) eqn:Hread;
    try discriminate.
  - apply readable_unread in Hread as (x & rest & Hx).
    rewrite Hx in Hfuel. simpl in Hfuel. lia.
  - destruct (pop_uint8 d) as [[x d1]| |] eqn:Hpop1; try discriminate.
    2:{ exfalso. apply (pop_uint8_defined d f). exact Hpop1. }
    apply pop_uint8_inv in Hpop1 as [[rest Hx] ->].
    change (Ok ?a ≫= ?k) with (k a). cbv beta iota zeta.
    destruct (pop_uint8 (advance 1 d)) as [[y d2]| |] eqn:Hpop2; try discriminate.
    2:{ exfalso. apply (pop_uint8_defined (advance 1 d) f). exact Hpop2. }
    apply pop_uint8_inv in Hpop2 as [_ ->].
    change (Ok ?a ≫= ?k) with (k a). cbv beta iota.
    destruct (overlay_fill _ _ _ _) as [result'| |] eqn:Hfill; try discriminate.
    + change (Ok ?a ≫= ?k) with (k a). cbv beta.
      apply IH. simpl. rewrite !length_drop. lia.
    + apply overlay_fill_fault in Hfill. subst f. discriminate.
Qed.

Lemma mask_loop_unfold fuel d result :
  mask_loop fuel d result =
  if readable d then
    match fuel with
    | 0 => Undefined LoopBound
    | S fuel' =>
        '(drop, d) ← pop_uint8 d;
        let result := push_words result x00 (byte_val drop) in
        '(fill, d) ← pop_uint8 d;
        let result := push_words result xff (byte_val fill) in
        mask_loop fuel' d result
    end
  else Ok result.
Proof. destruct fuel; reflexivity. Qed.

Lemma mask_loop_bound : forall fuel d result,
  length (unread d) <= fuel ->
  mask_loop fuel d result <> Undefined LoopBound.
Proof.
  induction fuel as [|fuel IH]; intros d result Hfuel;
    rewrite mask_loop_unfold; destruct (readable d) eqn:Hread;
    try discriminate.
  - apply readable_unread in Hread as (x & rest & Hx).
    rewrite Hx in Hfuel. simpl in Hfuel. lia.
  - destruct (pop_uint8 d) as [[x d1]| |] eqn:Hpop1; try discriminate.
    2:{ exfalso. apply (pop_uint8_defined d f). exact Hpop1. }
    apply pop_uint8_inv in Hpop1 as [[rest Hx] ->].
    change (Ok ?a ≫= ?k) with (k a). cbv beta iota zeta.
    destruct (pop_uint8 (advance 1 d)) as [[y d2]| |] eqn:Hpop2; try discriminate.
    2:{ exfalso. apply (pop_uint8_defined (advance 1 d) f). exact Hpop2. }
    apply pop_uint8_inv in Hpop2 as [_ ->].
    change (Ok ?a ≫= ?k) with (k a). cbv beta iota zeta.
    apply IH. simpl. rewrite !length_drop. lia.
Qed.

(** No decoder stops for lack of loop rounds. *)
Lemma decoders_bound d palette value :
  SpriteDosSolid d palette <> Undefined LoopBound /\
  SpriteDosOverlay d palette value <> Undefined LoopBound /\
  SpriteDosMask d <> Undefined LoopBound.
Proof.
  unfold SpriteDosSolid, SpriteDosOverlay, SpriteDosMask.
  pose proof (SpriteBaseDOS_defined d LoopBound) as Hbase.
  destruct (SpriteBaseDOS d) as [[base d1]| |]; try (repeat split; discriminate).
  - ok_steps. repeat split.
    + case_decide; [discriminate|].
      pose proof (solid_loop_bound palette (length (unread d1)) d1 []) as Hb.
      destruct (solid_loop _ _ _ _) as [result| |]; try discriminate.
      intros [= ->]. apply Hb; [lia | reflexivity].
    + pose proof (overlay_loop_bound palette value (length (unread d1)) d1 []) as Hb.
      destruct (overlay_loop _ _ _ _ _) as [result| |]; try discriminate.
      intros [= ->]. apply Hb; [lia | reflexivity].
    + pose proof (mask_loop_bound (length (unread d1)) d1 []) as Hb.
      destruct (mask_loop _ _ _) as [result| |]; try discriminate.
      intros [= ->]. apply Hb; [lia | reflexivity].
  - repeat split; intros [= ->]; apply Hbase; reflexivity.
Qed.

(** The mask and overlay decoders on the run "drop 1, fill 2". *)
Example SpriteDosMask_run :
  sprite_data <$> load_sprite (SpriteDosMask (new_buffer (header_3x1 ++ [B 1; B 2])
                                               EndianessLittle))
  = Some [x00; x00; x00; x00; xff; xff; xff; xff; xff; xff; xff; xff].
Proof. reflexivity. Qed.

Example SpriteDosOverlay_run :
  sprite_data <$> load_sprite (SpriteDosOverlay
                                 (new_buffer (header_3x1 ++ [B 1; B 2]) EndianessLittle)
                                 example_palette x80)
  = Some [x00; x00; x00; x00; B 7; B 127; x80; x80; B 7; B 127; x80; x80].
Proof. vm_compute. reflexivity. Qed.

(** A stream of one run that drops nothing and fills one pixel. *)
Lemma transparent_one_fill (hdr : list byte) e palette color x :
  length hdr = 10 ->
  let d := new_buffer (hdr ++ [x00; B 1; x]) e in
  SpriteDosTransparent d palette color
  = c ← palette_at palette (byte_val x + color);
    Ok (set_data (header_sprite d) [b c; g c; r c; xff]).
Proof.
  intros Hh d.
  do 10 (destruct hdr as [|? hdr]; [discriminate Hh|]).
  destruct hdr; [|discriminate Hh].
  unfold SpriteDosTransparent.
  rewrite SpriteBaseDOS_ok by (reflexivity || (unfold get_size; simpl; lia)).
  change (Ok ?a ≫= ?k) with (k a). cbv beta iota.
  change (length (unread (advance 10 d))) with 3.
  rewrite transparent_loop_unfold.
  change (readable (advance 10 d)) with true. cbv iota.
  rewrite (pop_uint8_ok (advance 10 d) x00 [B 1; x] eq_refl).
  change (Ok ?a ≫= ?k) with (k a). cbv beta iota zeta.
  rewrite (pop_uint8_ok (advance 1 (advance 10 d)) (B 1) [x] eq_refl).
  change (Ok ?a ≫= ?k) with (k a). cbv beta iota.
  change (N.to_nat (byte_val (B 1))) with 1.
  cbn [fill_loop].
  rewrite (pop_uint8_ok (advance 1 (advance 1 (advance 10 d))) x [] eq_refl).
  change (Ok ?a ≫= ?k) with (k a). cbv beta iota zeta.
  destruct (palette_at palette (byte_val x + color)) as [c| |]; try reflexivity.
Qed.



(** C9: the palette index of a filled pixel is the sum of the stream
    byte and the colour offset as it stands: the pixel comes from that
    palette entry when the sum is at most 255, and the lookup leaves the
    256 entries of the palette when it is more, as for the stream byte
    255 with the offset 72, where the index is 327. *)
Theorem transparent_palette_index
    (hdr : list byte) (e : Endianess) (palette : list ColorDOS) (color : N) (x : byte) :
  length hdr = 10 -> length palette = 256 ->
  let d := new_buffer (hdr ++ [x00; B 1; x]) e in
  (match palette !! N.to_nat (byte_val x + color) with
   | Some c => exists s, SpriteDosTransparent d palette color = Ok s /\
                         sprite_data s = [b c; g c; r c; xff]
   | None => SpriteDosTransparent d palette color = Undefined PaletteRange
   end) /\
  (palette !! N.to_nat (byte_val x + color) = None <-> (255 < byte_val x + color)%N) /\
  (byte_val xff + 72 = 327)%N /\
  SpriteDosTransparent (new_buffer (hdr ++ [x00; B 1; xff]) e) palette 72
  = Undefined PaletteRange.
Proof.
  intros Hh Hpal d.
  assert (Hrange : forall p : N, palette !! N.to_nat p = None <-> (255 < p)%N).
  { intros p. rewrite lookup_ge_None, Hpal. lia. }
  split; [|split; [apply Hrange|split; [reflexivity|]]].
  - unfold d. rewrite transparent_one_fill by exact Hh.
    unfold palette_at.
    destruct (palette !! N.to_nat (byte_val x + color)) as [c|]; [|reflexivity].
    eexists. split; reflexivity.
  - rewrite transparent_one_fill by exact Hh.
    unfold palette_at.
    destruct (palette !! N.to_nat (byte_val xff + 72)) as [c|] eqn:Hc; [|reflexivity].
    assert (Hnone : palette !! N.to_nat (byte_val xff + 72) = None)
      by (apply Hrange; reflexivity).
    congruence.
Qed.

(** The stream byte 255 under the colour offsets 0 and 72. *)
Lemma transparent_palette_index_witness :
  length header_3x1 = 10 /\ length example_palette = 256 /\
  (exists s,
     SpriteDosTransparent
       (new_buffer (header_3x1 ++ [x00; B 1; xff]) EndianessLittle)
       example_palette 0 = Ok s /\
     sprite_data s = [B 7; B 0; B 255; xff]) /\
  SpriteDosTransparent
    (new_buffer (header_3x1 ++ [x00; B 1; xff]) EndianessLittle)
    example_palette 72
  = Undefined PaletteRange.
Proof.
  split; [reflexivity|]. split; [reflexivity|].
  pose proof (transparent_palette_index header_3x1 EndianessLittle example_palette
                0 xff eq_refl eq_refl) as H.
  cbv zeta in H. destruct H as (H0 & _ & _ & H72).
  split; [exact H0 | exact H72].
Defined.

(** ** get_sprite_parts *)

Lemma colors_of_length n : forall bytes,
  length bytes = 3 * n -> length (colors_of bytes) = n.
Proof.
  induction n as [|n IH]; intros bytes Hlen.
  - destruct bytes; [reflexivity|discriminate Hlen].
  - destruct bytes as [|x [|y [|z rest]]]; simpl in Hlen; try lia.
    simpl. f_equal. apply IH. lia.
Qed.

(** A palette that [get_dos_palette] resolves has 256 colours. *)
Lemma get_dos_palette_length ds i palette :
  get_dos_palette ds i = Ok (Some palette) -> length palette = 256.
Proof.
  unfold get_dos_palette. intros H.
  apply bind_Ok in H as ([d|] & _ & H); [|discriminate H].
  case_decide as Hsize; [discriminate H|].
  injection H as <-. apply colors_of_length.
  unfold get_size, sizeof_ColorDOS in Hsize. lia.
Qed.

Section FacadeProperties.

Variable ds : DataSource.

Lemma get_object_fresh i range :
  get_object ds i = Ok (Some range) -> unread range = data range.
Proof.
  unfold get_object. intros H.
  case_decide; [discriminate|].
  destruct (entries ds !! i) as [e|]; [|discriminate].
  case_decide; [discriminate|].
  unfold get_subbuffer in H. case_decide; [|discriminate].
  injection H as <-. reflexivity.
Qed.

Lemma SpriteDosTransparent_short d palette color :
  get_size d < 10 -> SpriteDosTransparent d palette color = Throw ExtractSprite.
Proof. intros H. unfold SpriteDosTransparent. rewrite SpriteBaseDOS_short; auto. Qed.

Lemma SpriteDosSolid_short d palette :
  get_size d < 10 -> SpriteDosSolid d palette = Throw ExtractSprite.
Proof. intros H. unfold SpriteDosSolid. rewrite SpriteBaseDOS_short; auto. Qed.

Lemma SpriteDosOverlay_short d palette value :
  get_size d < 10 -> SpriteDosOverlay d palette value = Throw ExtractSprite.
Proof. intros H. unfold SpriteDosOverlay. rewrite SpriteBaseDOS_short; auto. Qed.

Lemma SpriteDosMask_short d :
  get_size d < 10 -> SpriteDosMask d = Throw ExtractSprite.
Proof. intros H. unfold SpriteDosMask. rewrite SpriteBaseDOS_short; auto. Qed.

Lemma decode_declared_short res i palette range :
  get_object ds (index (dos_resources res) + i) = Ok (Some range) ->
  get_size range < 10 ->
  sprite_type (dos_resources res) <> SpriteTypeUnknown ->
  decode_declared ds res i palette = Throw ExtractSprite.
Proof.
  intros Hobj Hsize Htype. unfold decode_declared. rewrite Hobj.
  change (Ok ?a ≫= ?k) with (k a). cbv beta iota.
  destruct (sprite_type (dos_resources res)); [contradiction| | | |].
  - rewrite SpriteDosSolid_short by exact Hsize. reflexivity.
  - rewrite SpriteDosTransparent_short by exact Hsize. reflexivity.
  - rewrite SpriteDosOverlay_short by exact Hsize. reflexivity.
  - rewrite SpriteDosMask_short by exact Hsize. reflexivity.
Qed.

Lemma decode_declared_solid res i palette range :
  get_object ds (index (dos_resources res) + i) = Ok (Some range) ->
  sprite_type (dos_resources res) = SpriteTypeSolid ->
  decode_declared ds res i palette
  = sprite ← SpriteDosSolid range palette; Ok (None, Some sprite).
Proof.
  intros Hobj Htype. unfold decode_declared. rewrite Hobj.
  change (Ok ?a ≫= ?k) with (k a). cbv beta iota.
  rewrite Htype. reflexivity.
Qed.

End FacadeProperties.

Lemma decode_declared_absent ds res i palette :
get_object ds (index (dos_resources res) + i) = Ok None ->
decode_declared ds res i palette = Ok (None, None).
Proof. intros Hobj. unfold decode_declared. rewrite Hobj. reflexivity. Qed.

(** C1, as the code has it: [get_sprite_parts] has no handler, so a
    failing decode leaves it as the decoder's exception.  The call
    returns "unavailable" (no mask, no image) for an index beyond the
    kind's count, for a palette that does not resolve and for an absent
    first object.  With the first object present and a kind that has a
    sprite encoding, an object shorter than the ten byte header makes
    the call raise "Failed to extract DOS sprite", and a solid kind's
    object of a size other than width*height + 10 makes it raise, too;
    nothing is returned then. *)
Theorem get_sprite_parts_decode_error
    (get_resource_count : Resource -> nat)
    (separate_sprites : Sprite -> Sprite -> outcome (option PSprite * option PSprite))
    (stick : Sprite -> Sprite -> nat -> nat -> Sprite)
    (ds : DataSource) (res : Resource) (i : nat) :
  let result := get_sprite_parts get_resource_count separate_sprites stick ds res i in
  (get_resource_count res <= i -> result = Ok (None, None)) /\
  (i < get_resource_count res ->
   get_dos_palette ds (dos_palette (dos_resources res)) = Ok None ->
   result = Ok (None, None)) /\
  (forall palette,
     i < get_resource_count res ->
     get_dos_palette ds (dos_palette (dos_resources res)) = Ok (Some palette) ->
     (get_object ds (first_object res i) = Ok None -> result = Ok (None, None)) /\
     (forall range,
        get_object ds (first_object res i) = Ok (Some range) ->
        sprite_type (dos_resources res) <> SpriteTypeUnknown ->
        (get_size range < 10 -> result = Throw ExtractSprite) /\
        (sprite_type (dos_resources res) = SpriteTypeSolid ->
         N.of_nat (get_size range)
         <> (header_width range * header_height range + 10)%N ->
         exists e, result = Throw e))).
Proof.
  intros result. unfold result, get_sprite_parts.
  split; [|split].
  - intros Hcount. rewrite decide_True by exact Hcount. reflexivity.
  - intros Hcount Hpal. rewrite decide_False by lia. rewrite Hpal. reflexivity.
  - intros palette Hcount Hpal. rewrite decide_False by lia.
    rewrite Hpal. ok_steps. split.
    + intros Hobj.
      destruct res; unfold first_object in Hobj;
        try (apply (decode_declared_absent ds _ i palette Hobj));
        try (rewrite Hobj; reflexivity).
      destruct (decide (128 <= i /\ i <= 143)) as [Hflag|Hplain].
      * rewrite Hobj. reflexivity.
      * apply (decode_declared_absent ds _ i palette Hobj).
    + intros range Hobj Htype. split.
      * intros Hsize.
        destruct res; unfold first_object in Hobj;
          try (apply (decode_declared_short ds _ i palette range Hobj Hsize Htype));
          try (rewrite Hobj; change (Ok ?a ≫= ?k) with (k a); cbv beta iota;
               rewrite SpriteDosTransparent_short by exact Hsize; reflexivity).
        destruct (decide (128 <= i /\ i <= 143)) as [Hflag|Hplain].
        -- rewrite Hobj. change (Ok ?a ≫= ?k) with (k a). cbv beta iota.
           rewrite SpriteDosTransparent_short by exact Hsize. reflexivity.
        -- apply (decode_declared_short ds _ i palette range Hobj Hsize Htype).
      * intros Hsolid Hsize.
        pose proof (get_object_fresh ds _ _ Hobj) as Hfresh.
        assert (Hthrow : exists e, SpriteDosSolid range palette = Throw e).
        { destruct (decide (get_size range < 10)) as [Hshort|Hlong].
          - exists ExtractSprite. apply SpriteDosSolid_short, Hshort.
          - exists ExtractSolidSprite. unfold SpriteDosSolid.
            rewrite SpriteBaseDOS_ok by (assumption || lia). ok_steps.
            rewrite decide_True by exact Hsize. reflexivity. }
        destruct Hthrow as [e He]. exists e.
        destruct res; try discriminate Hsolid; unfold first_object in Hobj;
          rewrite (decode_declared_solid ds _ i palette range Hobj Hsolid), He;
          reflexivity.
Qed.

(** Dotted line 0 of [example_source] is the two byte stump. *)
Lemma get_sprite_parts_decode_error_witness :
  0 < example_count AssetDottedLines /\
  get_dos_palette example_source 3 = Ok (Some example_palette) /\
  get_object example_source 5 = Ok (Some stump) /\
  get_size stump < 10 /\
  get_sprite_parts example_count example_separate example_stick
    example_source AssetDottedLines 0 = Throw ExtractSprite.
Proof.
  assert (H1 : 0 < example_count AssetDottedLines) by (unfold example_count; lia).
  assert (H2 : get_dos_palette example_source 3 = Ok (Some example_palette))
    by (vm_compute; reflexivity).
  assert (H3 : get_object example_source 5 = Ok (Some stump))
    by (vm_compute; reflexivity).
  assert (H4 : get_size stump < 10) by (vm_compute; lia).
  repeat (split; [assumption|]).
  pose proof (get_sprite_parts_decode_error example_count example_separate
                example_stick example_source AssetDottedLines 0) as H.
  cbv zeta in H. destruct H as (_ & _ & H).
  destruct (H example_palette H1 H2) as [_ Hrange].
  apply (Hrange stump H3); [discriminate | exact H4].
Defined.

(** C1 as stated fails: the decode of dotted line 0 of [example_source]
    fails on the header, and the request does not come back as
    "unavailable", it ends in the exception. *)
Lemma get_sprite_parts_catch_counterexample :
  get_object example_source (first_object AssetDottedLines 0) = Ok (Some stump) /\
  SpriteDosSolid stump example_palette = Throw ExtractSprite /\
  get_sprite_parts example_count example_separate example_stick
    example_source AssetDottedLines 0 = Throw ExtractSprite /\
  get_sprite_parts example_count example_separate example_stick
    example_source AssetDottedLines 0 <> Ok (None, None).
Proof.
  assert (H : get_sprite_parts example_count example_separate example_stick
                example_source AssetDottedLines 0 = Throw ExtractSprite)
    by (vm_compute; reflexivity).
  split; [vm_compute; reflexivity|]. split; [vm_compute; reflexivity|].
  split; [exact H|]. rewrite H. discriminate.
Qed.

(** C2, as the code has it: when both torso decodes and
    [separate_sprites] succeed and the arms object is present, the
    request ends as the decode of the arms ends: arms that fail to
    decode (shorter than the ten byte header, say) make
    [get_sprite_parts] raise the decode error instead of returning the
    torso pair, and the pair is returned only after the arms were
    decoded and stuck onto the torso. *)
Theorem serf_torso_arms
    (get_resource_count : Resource -> nat)
    (separate_sprites : Sprite -> Sprite -> outcome (option PSprite * option PSprite))
    (stick : Sprite -> Sprite -> nat -> nat -> Sprite)
    (ds : DataSource) (i : nat) (palette : list ColorDOS)
    (range arms_range : Buffer) (torso torso2 : Sprite)
    (mi : option PSprite * option PSprite) :
  i < get_resource_count AssetSerfTorso ->
  get_dos_palette ds 3 = Ok (Some palette) ->
  get_object ds (2500 + i) = Ok (Some range) ->
  SpriteDosTransparent range palette 64 = Ok torso ->
  SpriteDosTransparent range palette 72 = Ok torso2 ->
  separate_sprites torso torso2 = Ok mi ->
  get_object ds (DATA_SERF_ARMS + i) = Ok (Some arms_range) ->
  get_sprite_parts get_resource_count separate_sprites stick ds AssetSerfTorso i
  = (arms ← SpriteDosTransparent arms_range palette 0;
     Ok (view (stick torso arms 0 0) torso2 mi)) /\
  (get_size arms_range < 10 ->
   get_sprite_parts get_resource_count separate_sprites stick ds AssetSerfTorso i
   = Throw ExtractSprite).
Proof.
  intros Hcount Hpal Hobj Ht1 Ht2 Hsep Harms.
  assert (E : get_sprite_parts get_resource_count separate_sprites stick ds
                AssetSerfTorso i
              = (arms ← SpriteDosTransparent arms_range palette 0;
                 Ok (view (stick torso arms 0 0) torso2 mi))).
  { unfold get_sprite_parts. rewrite decide_False by lia.
    change (dos_palette (dos_resources AssetSerfTorso)) with 3.
    rewrite Hpal. change (Ok ?a ≫= ?k) with (k a). cbv beta iota.
    change (index (dos_resources AssetSerfTorso)) with 2500.
    rewrite Hobj. ok_steps. rewrite Ht1. ok_steps. rewrite Ht2. ok_steps.
    rewrite Hsep. ok_steps. rewrite Harms. ok_steps. reflexivity. }
  split; [exact E|].
  intros Hshort. rewrite E, SpriteDosTransparent_short by exact Hshort.
  reflexivity.
Qed.

(** Serf torso 0 of [example_source]: the torso decodes, the arms are
    the two byte stump. *)
Lemma serf_torso_arms_witness :
  0 < example_count AssetSerfTorso /\
  get_dos_palette example_source 3 = Ok (Some example_palette) /\
  get_object example_source (2500 + 0) = Ok (Some one_pixel) /\
  SpriteDosTransparent one_pixel example_palette 64 = Ok (one_pixel_decoded 64) /\
  SpriteDosTransparent one_pixel example_palette 72 = Ok (one_pixel_decoded 72) /\
  get_object example_source (DATA_SERF_ARMS + 0) = Ok (Some stump) /\
  get_size stump < 10 /\
  get_sprite_parts example_count example_separate example_stick
    example_source AssetSerfTorso 0 = Throw ExtractSprite.
Proof.
  assert (H1 : 0 < example_count AssetSerfTorso) by (unfold example_count; lia).
  assert (H2 : get_dos_palette example_source 3 = Ok (Some example_palette))
    by (vm_compute; reflexivity).
  assert (H3 : get_object example_source (2500 + 0) = Ok (Some one_pixel))
    by (vm_compute; reflexivity).
  assert (H4 : SpriteDosTransparent one_pixel example_palette 64
               = Ok (one_pixel_decoded 64)) by (vm_compute; reflexivity).
  assert (H5 : SpriteDosTransparent one_pixel example_palette 72
               = Ok (one_pixel_decoded 72)) by (vm_compute; reflexivity).
  assert (H6 : get_object example_source (DATA_SERF_ARMS + 0) = Ok (Some stump))
    by (vm_compute; reflexivity).
  assert (H7 : get_size stump < 10) by (vm_compute; lia).
  repeat (split; [assumption|]).
  refine (proj2 (serf_torso_arms example_count example_separate example_stick
                   example_source 0 example_palette one_pixel stump
                   (one_pixel_decoded 64) (one_pixel_decoded 72) _
                   H1 H2 H3 H4 H5 _ H6) H7).
  vm_compute. reflexivity.
Defined.

(** C2 as stated fails: both torso decodes of serf torso 0 of
    [example_source] succeed, its arms are too short to decode, and the
    request is aborted by the exception of the arms decoder. *)
Lemma serf_torso_arms_counterexample :
  SpriteDosTransparent one_pixel example_palette 64 = Ok (one_pixel_decoded 64) /\
  SpriteDosTransparent one_pixel example_palette 72 = Ok (one_pixel_decoded 72) /\
  get_object example_source (DATA_SERF_ARMS + 0) = Ok (Some stump) /\
  SpriteDosTransparent stump example_palette 0 = Throw ExtractSprite /\
  get_sprite_parts example_count example_separate example_stick
    example_source AssetSerfTorso 0 = Throw ExtractSprite /\
  ~ returns (get_sprite_parts example_count example_separate example_stick
               example_source AssetSerfTorso 0).
Proof.
  assert (H : get_sprite_parts example_count example_separate example_stick
                example_source AssetSerfTorso 0 = Throw ExtractSprite)
    by (vm_compute; reflexivity).
  do 4 (split; [vm_compute; reflexivity|]).
  split; [exact H|]. intros [mi Hmi]. rewrite H in Hmi. discriminate Hmi.
Qed.

(** C8: for the map objects 128 to 143, within the kind's count and
    with the palette resolved, [get_sprite_parts] takes the frame
    (index - 128) mod 4, decodes the transparent sprites of the archive
    entries 1250 + 128 + frame and 1250 + 128 + 4 + frame, and returns
    what [separate_sprites] makes of the two. *)
Theorem flag_sprites
    (get_resource_count : Resource -> nat)
    (separate_sprites : Sprite -> Sprite -> outcome (option PSprite * option PSprite))
    (stick : Sprite -> Sprite -> nat -> nat -> Sprite)
    (ds : DataSource) (i : nat) (palette : list ColorDOS)
    (range1 range2 : Buffer) (s1 s2 : Sprite) :
  128 <= i <= 143 ->
  i < get_resource_count AssetMapObject ->
  get_dos_palette ds 3 = Ok (Some palette) ->
  get_object ds (1250 + 128 + (i - 128) mod 4) = Ok (Some range1) ->
  SpriteDosTransparent range1 palette 0 = Ok s1 ->
  get_object ds (1250 + 128 + 4 + (i - 128) mod 4) = Ok (Some range2) ->
  SpriteDosTransparent range2 palette 0 = Ok s2 ->
  get_sprite_parts get_resource_count separate_sprites stick ds AssetMapObject i
  = (mi ← separate_sprites s1 s2; Ok (view s1 s2 mi)).
Proof.
  intros Hi Hcount Hpal Hobj1 Hs1 Hobj2 Hs2.
  unfold get_sprite_parts. rewrite decide_False by lia.
  change (dos_palette (dos_resources AssetMapObject)) with 3.
  rewrite Hpal. ok_steps.
  rewrite decide_True by exact Hi.
  change (index (dos_resources AssetMapObject)) with 1250. cbv zeta.
  rewrite Hobj1. ok_steps. rewrite Hs1. ok_steps.
  rewrite Hobj2. ok_steps. rewrite Hs2. ok_steps. reflexivity.
Qed.

(** Map object 130 of [example_source]: frame 2, entries 1380 and
    1384. *)
Lemma flag_sprites_witness :
  128 <= 130 <= 143 /\
  (130 - 128) mod 4 = 2 /\
  get_object example_source 1380 = Ok (Some one_pixel) /\
  get_object example_source 1384 = Ok (Some one_pixel) /\
  get_sprite_parts example_count example_separate example_stick
    example_source AssetMapObject 130
  = Ok (Some (set_data (one_pixel_decoded 0) [x00; x00; x00; x00]),
        Some (one_pixel_decoded 0)).
Proof.
  assert (H0 : 128 <= 130 <= 143) by lia.
  assert (H1 : 130 < example_count AssetMapObject) by (unfold example_count; lia).
  assert (H2 : get_dos_palette example_source 3 = Ok (Some example_palette))
    by (vm_compute; reflexivity).
  assert (H3 : get_object example_source (1250 + 128 + (130 - 128) mod 4)
               = Ok (Some one_pixel)) by (vm_compute; reflexivity).
  assert (H4 : SpriteDosTransparent one_pixel example_palette 0
               = Ok (one_pixel_decoded 0)) by (vm_compute; reflexivity).
  assert (H5 : get_object example_source (1250 + 128 + 4 + (130 - 128) mod 4)
               = Ok (Some one_pixel)) by (vm_compute; reflexivity).
  split; [exact H0|]. split; [reflexivity|].
  split; [exact H3|]. split; [exact H5|].
  rewrite (flag_sprites example_count example_separate example_stick
             example_source 130 example_palette one_pixel one_pixel
             (one_pixel_decoded 0) (one_pixel_decoded 0) H0 H1 H2 H3 H4 H5 H4).
  vm_compute. reflexivity.
Defined.

(** ** load and the animation table *)

(** The check of [load] on the animation table, for any archive whose
    index was read and fixed up: the big-endian prefix is compared with
    the size of the whole table resource, prefix included. *)
Lemma load_animation_check
    (check : bool) (read_file : outcome Buffer)
    (UnpackerTPWM : Buffer -> outcome Buffer)
    (load_animation_table : Buffer -> bool)
    (file spae spae' : Buffer) (es es' : list DataEntry) (anim : Buffer) :
  check = true ->
  read_file = Ok file ->
  try_catch (UnpackerTPWM file) (Ok file) = Ok spae ->
  read_entries spae = Ok (spae', es) ->
  fixup es = Ok es' ->
  get_object {| spae := spae'; entries := es' |} DATA_SERF_ANIMATION_TABLE
  = Ok (Some anim) ->
  4 <= get_size anim ->
  let prefix := le_value (rev (take 4 (data anim))) in
  load check read_file UnpackerTPWM load_animation_table
  = Ok (if decide (N.of_nat (get_size anim) = prefix)
        then let table := new_buffer (drop 4 (data anim)) EndianessBig in
             mkLoaded (load_animation_table table)
                      (Some {| spae := spae'; entries := es' |}) (Some table)
        else mkLoaded false (Some {| spae := spae'; entries := es' |}) None).
Proof.
  intros -> -> Hunpack Hentries Hfixup Hanim Hsize prefix.
  pose proof (get_object_fresh _ _ _ Hanim) as Hfresh.
  unfold load. cbn [negb]. cbv iota.
  rewrite Hunpack. ok_steps. rewrite Hentries. ok_steps.
  rewrite Hfixup. ok_steps. rewrite Hanim. ok_steps.
  unfold pop_uint32.
  rewrite pop_unsigned_ok by (simpl; rewrite Hfresh; exact Hsize).
  ok_steps. cbv zeta.
  simpl unread. rewrite Hfresh. simpl endianess.
  cbn [decode_unsigned]. fold prefix.
  change (get_size (set_endianess EndianessBig anim)) with (get_size anim).
  destruct (decide (N.of_nat (get_size anim) = prefix)) as [Heq|Hne].
  - rewrite decide_False by (intros Hn; apply Hn; exact Heq).
    unfold pop_tail, advance, new_buffer. simpl. rewrite Hfresh. reflexivity.
  - rewrite decide_True by exact Hne. reflexivity.
Qed.

(** C3, the code at work: for the table [0; 0; 0; 2; 170; 187], whose
    prefix 2 is the number of bytes after the prefix, [load] reports
    failure and hands out no animation table; for the table
    [0; 0; 0; 6; 170; 187], whose prefix counts the prefix as well,
    [load] succeeds with the table bytes 170, 187. *)
Theorem load_animation_prefix :
  load_result (load_archive (animation_archive table_prefix_rest))
  = Some (false, None) /\
  load_result (load_archive (animation_archive table_prefix_whole))
  = Some (true, Some (new_buffer [B 170; B 187] EndianessBig)).
Proof. split; vm_compute; reflexivity. Qed.

(** ** Collection *)

Section CollectionProperties.

Variable T : Type.
Variable new_T : N -> T.

(** [get_or_insert] beyond [last_object_index] on an empty collection:
    the loop over the skipped indexes inserts [index] itself. *)
Lemma get_or_insert_empty (index : N) :
  (0 < index)%N ->
  let c := (Collection.get_or_insert T new_T index
              (Collection.empty_collection T)).2 in
  Collection.objects T c !! index = Some (new_T index) /\
  index ∈ Collection.free_object_indexes T c.
Proof.
  intros Hpos c. unfold c, Collection.get_or_insert. simpl.
  rewrite lookup_empty. rewrite decide_True by lia. simpl.
  split; [apply lookup_insert_eq|].
  unfold Collection.indexes.
  destruct (N.to_nat index - N.to_nat 0) as [|n] eqn:En; [lia|].
  simpl. generalize (seq (S (N.to_nat 0)) n). intros l.
  assert (H : forall (l : list nat) (s : gset N), index ∈ s ->
              index ∈ foldl (fun free (_ : N) => {[index]} ∪ free) s (N.of_nat <$> l)).
  { clear. induction l as [|i l IH]; intros s Hs; simpl; [exact Hs|].
    apply IH. set_solver. }
  apply H. set_solver.
Qed.

End CollectionProperties.

(** C10, the code at work: after the single call get_or_insert(5) on
    an empty collection the object 5 is live, [last_object_index] is 6
    and the set of free indexes is {5}: the loop over the skipped
    indexes 0 to 4 inserts [index] where the loop variable was meant.
    The free index 5 is a key of the objects map, and the next
    allocate() hands out index 5 again. *)
Theorem get_or_insert_frees_live_index (T : Type) (new_T : N -> T) :
  let c := Collection.run_calls T new_T [Collection.GetOrInsert 5] in
  Collection.objects T c !! 5%N = Some (new_T 5%N) /\
  Collection.last_object_index T c = 6%N /\
  Collection.free_object_indexes T c = {[ 5%N ]} /\
  ~ Collection.free_indexes_ok T c /\
  (Collection.allocate T new_T c).1 = Some (new_T 5%N).
Proof.
  intros c.
  assert (Hobj : Collection.objects T c !! 5%N = Some (new_T 5%N)).
  { apply (get_or_insert_empty T new_T 5). reflexivity. }
  assert (Hfree : Collection.free_object_indexes T c = {[ 5%N ]}).
  { unfold c, Collection.run_calls, Collection.get_or_insert. simpl.
    set_solver. }
  split; [exact Hobj|]. split; [reflexivity|]. split; [exact Hfree|]. split.
  - intros Hok. destruct (Hok 5%N) as [_ Hnone].
    + rewrite Hfree. set_solver.
    + rewrite Hobj in Hnone. discriminate Hnone.
  - unfold Collection.allocate, Collection.begin. rewrite Hfree.
    rewrite elements_singleton. reflexivity.
Qed.
(** * Round trips, invariants and edge cases *)

(** ** Numbers and the index *)

(** ** Numbers and their bytes *)

Lemma byte_val_B (n : N) : (n < 256)%N -> byte_val (B n) = n.
Proof.
  intros Hn. unfold B, byte_val.
  destruct (Byte.of_N n) as [x|] eqn:E.
  - apply Byte.to_of_N. exact E.
  - apply Byte.of_N_None_iff in E. lia.
Qed.

Lemma B_byte_val (x : byte) : B (byte_val x) = x.
Proof. unfold B, byte_val. rewrite Byte.of_to_N. reflexivity. Qed.

(** [lia] with division by a constant. *)
Ltac lia_div := Z.to_euclidean_division_equations; lia.

Lemma le_value_le16 (n : N) : (n < 65536)%N -> le_value (le16 n) = n.
Proof.
  intros Hn. unfold le16. cbn [le_value].
  rewrite !byte_val_B by (apply N.mod_upper_bound; lia).
  zify. lia_div.
Qed.

Lemma le_value_le32 (n : N) : (n < 4294967296)%N -> le_value (le32 n) = n.
Proof.
  intros Hn. unfold le32. cbn [le_value].
  rewrite !byte_val_B by (apply N.mod_upper_bound; lia).
  zify. lia_div.
Qed.

Lemma to_signed_of_signed (bits : N) (z : Z) :
  (0 < bits)%N ->
  (- 2 ^ (Z.of_N bits - 1) <= z < 2 ^ (Z.of_N bits - 1))%Z ->
  to_signed bits (of_signed bits z) = z.
Proof.
  intros Hbits Hz. unfold to_signed, of_signed.
  assert (Hpow : (2 ^ Z.of_N bits = 2 * 2 ^ (Z.of_N bits - 1))%Z).
  { rewrite <- Z.pow_succ_r by lia. f_equal. lia. }
  assert (Hpos : (0 < 2 ^ (Z.of_N bits - 1))%Z) by (apply Z.pow_pos_nonneg; lia).
  assert (HN : Z.of_N (2 ^ (bits - 1)) = (2 ^ (Z.of_N bits - 1))%Z).
  { rewrite N2Z.inj_pow. f_equal. lia. }
  pose proof (Z.mod_pos_bound z (2 ^ Z.of_N bits) ltac:(lia)) as Hmod.
  rewrite Z2N.id by lia.
  destruct (Z_lt_le_dec z 0) as [Hneg|Hnn].
  - assert (E : (z mod 2 ^ Z.of_N bits = z + 2 ^ Z.of_N bits)%Z).
    { symmetry. apply (Z.mod_unique _ _ (-1)); lia. }
    rewrite E. destruct (N.ltb_spec (Z.to_N (z + 2 ^ Z.of_N bits)) (2 ^ (bits - 1))); lia.
  - rewrite Z.mod_small by lia.
    destruct (N.ltb_spec (Z.to_N z) (2 ^ (bits - 1))); lia.
Qed.

(** ** Round trips of the index and of the sprite header *)

Lemma pop_unsigned_app n d bytes tail :
  unread d = bytes ++ tail -> length bytes = n ->
  pop_unsigned n d
  = Ok (decode_unsigned (endianess d) bytes,
        {| data := data d; unread := tail; endianess := endianess d |}).
Proof.
  intros Hu Hn. subst n. rewrite pop_unsigned_ok by (rewrite Hu, length_app; lia).
  unfold advance. rewrite Hu, take_app_length, drop_app_length. reflexivity.
Qed.

Lemma le32_length n : length (le32 n) = 4.
Proof. reflexivity. Qed.

Lemma read_entries_loop rest : forall es whole acc from,
  Forall entry_fits es ->
  for_loop from (length es) (fun (i : nat) '(spae, entries) =>
      '(sz, spae) ← pop_uint32 spae;
      '(off, spae) ← pop_uint32 spae;
      Ok (spae, entries ++ [{| offset := off; size := sz |}]))
    ({| data := whole; unread := encode_entries es ++ rest;
        endianess := EndianessLittle |}, acc)
  = Ok ({| data := whole; unread := rest; endianess := EndianessLittle |},
        acc ++ es).
Proof.
  induction es as [|e es IH]; intros whole acc from Hfit.
  - rewrite app_nil_r. reflexivity.
  - inversion Hfit as [|? ? [Hoff Hsize] Hrest]; subst.
    cbn [length]. rewrite for_loop_S. cbv beta iota.
    unfold pop_uint32 at 1.
    rewrite (pop_unsigned_app 4 _ (le32 (size e))
               (le32 (offset e) ++ encode_entries es ++ rest))
      by (reflexivity || (cbn [unread encode_entries flat_map];
                          rewrite <- !app_assoc; reflexivity)).
    ok_steps. unfold pop_uint32 at 1.
    rewrite (pop_unsigned_app 4 _ (le32 (offset e)) (encode_entries es ++ rest))
      by reflexivity.
    ok_steps. cbn [endianess decode_unsigned].
    rewrite !le_value_le32 by assumption.
    rewrite IH by exact Hrest. rewrite <- app_assoc.
    destruct e. reflexivity.
Qed.

Lemma read_entries_encode_index_run (es : list DataEntry) (rest : list byte) :
  (N.of_nat (length es) < 4294967296)%N ->
  Forall entry_fits es ->
  read_entries (new_buffer (encode_index es ++ rest) EndianessLittle)
  = Ok ({| data := encode_index es ++ rest; unread := rest;
           endianess := EndianessLittle |},
        {| offset := 0; size := 0 |} :: es).
Proof.
  intros Hcount Hfit. unfold read_entries, pop_uint32.
  rewrite (pop_unsigned_app 4 _ (le32 (N.of_nat (length es)))
             (encode_entries es ++ rest))
    by (reflexivity || (unfold new_buffer, encode_index; cbn [unread];
                        rewrite <- app_assoc; reflexivity)).
  ok_steps. cbn [endianess new_buffer decode_unsigned].
  rewrite le_value_le32 by exact Hcount. rewrite Nat2N.id.
  apply (read_entries_loop rest es _ [{| offset := 0; size := 0 |}] 0 Hfit).
Qed.

(** X1: [load] reads back an index as it is laid out in the archive:
    the 32-bit count, then size and offset of every entry; the table
    it builds is the placeholder entry followed by the entries, and the
    read pointer is left behind the index. *)
Theorem read_entries_encode_index (es : list DataEntry) (rest : list byte) :
  (N.of_nat (length es) < 4294967296)%N ->
  Forall entry_fits es ->
  read_entries (new_buffer (encode_index es ++ rest) EndianessLittle)
  = Ok ({| data := encode_index es ++ rest; unread := rest;
           endianess := EndianessLittle |},
        {| offset := 0; size := 0 |} :: es).
Proof. apply read_entries_encode_index_run. Qed.

Lemma read_entries_encode_index_witness :
  read_entries
    (new_buffer (encode_index [ {| offset := 300; size := 70000 |};
                                {| offset := 0; size := 0 |} ] ++ [B 9])
                EndianessLittle)
  = Ok ({| data := encode_index [ {| offset := 300; size := 70000 |};
                                  {| offset := 0; size := 0 |} ] ++ [B 9];
           unread := [B 9]; endianess := EndianessLittle |},
        [ {| offset := 0; size := 0 |}; {| offset := 300; size := 70000 |};
          {| offset := 0; size := 0 |} ]).
Proof.
  apply read_entries_encode_index.
  - vm_compute. reflexivity.
  - repeat constructor.
Defined.

Lemma of_signed_lt (bits : N) (z : Z) : (of_signed bits z < 2 ^ bits)%N.
Proof.
  unfold of_signed.
  pose proof (Z.mod_pos_bound z (2 ^ Z.of_N bits) ltac:(apply Z.pow_pos_nonneg; lia)).
  assert (Z.of_N (2 ^ bits) = (2 ^ Z.of_N bits)%Z) by apply N2Z.inj_pow.
  lia.
Qed.

(** X2: the header parser reads back what a little-endian header
    holds: signed 8-bit deltas, unsigned 16-bit width and height, signed
    16-bit offsets (two's complement), and it leaves the read pointer
    on the first byte of the body. *)
Theorem SpriteBaseDOS_encode_header (s : Sprite) (body : list byte) :
  header_fits s ->
  SpriteBaseDOS (new_buffer (encode_header s ++ body) EndianessLittle)
  = Ok (set_data s [],
        {| data := encode_header s ++ body; unread := body;
           endianess := EndianessLittle |}).
Proof.
  intros (Hdx & Hdy & Hw & Hh & Hox & Hoy).
  rewrite SpriteBaseDOS_ok by (reflexivity || (unfold get_size; simpl; lia)).
  f_equal. f_equal.
  unfold header_sprite, header_width, header_height, field, set_data.
  unfold encode_header, le16, new_buffer.
  cbn [data endianess decode_unsigned app take drop firstn skipn le_value].
    pose proof (of_signed_lt 8 (delta_x s)). pose proof (of_signed_lt 8 (delta_y s)).
    pose proof (of_signed_lt 16 (offset_x s)).
    pose proof (of_signed_lt 16 (offset_y s)).
    change (2 ^ 8)%N with 256%N in *. change (2 ^ 16)%N with 65536%N in *.
    rewrite !(byte_val_B (of_signed 8 _)) by assumption.
    rewrite take_0. cbn [le_value].
    assert (E16 : forall v, (v < 65536)%N ->
              (byte_val (B (v mod 256))
               + 256 * (byte_val (B (v / 256 mod 256)) + 256 * 0))%N = v).
    { intros v Hv. apply (le_value_le16 v Hv). }
    rewrite !E16 by assumption.
    rewrite !N.mul_0_r, !N.add_0_r.
    rewrite !to_signed_of_signed by (simpl; lia).
    reflexivity.
Qed.

Lemma SpriteBaseDOS_encode_header_witness :
  SpriteBaseDOS
    (new_buffer (encode_header
                   {| delta_x := -3; delta_y := 5; width := 300; height := 2;
                      offset_x := -200; offset_y := 7; sprite_data := [] |}
                 ++ [B 1; B 2]) EndianessLittle)
  = Ok ({| delta_x := -3; delta_y := 5; width := 300; height := 2;
           offset_x := -200; offset_y := 7; sprite_data := [] |},
        {| data := encode_header
                     {| delta_x := -3; delta_y := 5; width := 300; height := 2;
                        offset_x := -200; offset_y := 7; sprite_data := [] |}
                   ++ [B 1; B 2];
           unread := [B 1; B 2]; endianess := EndianessLittle |}).
Proof.
  apply (SpriteBaseDOS_encode_header
           {| delta_x := -3; delta_y := 5; width := 300; height := 2;
              offset_x := -200; offset_y := 7; sprite_data := [] |} [B 1; B 2]).
  unfold header_fits. simpl. lia.
Defined.

(** ** fixup *)

(** ** More on fixup *)

Lemma fixed_positionN_spec (n : N) :
  fixed_positionN n = true <-> fixed_position (N.to_nat n).
Proof.
  unfold fixed_positionN.
  rewrite !orb_true_iff, !andb_true_iff, negb_true_iff.
  rewrite !N.leb_le, !N.ltb_lt, N.eqb_neq.
  unfold fixed_position. split.
  - intros [[[[[H1 H2] H3]|H]|H]|H]; [left|right; lia..].
    exists (N.to_nat ((n - 3450) / 6)), (N.to_nat ((n - 3450) mod 6)).
    zify. lia_div.
  - intros [(i & j & Hi & Hj & Hk)|H]; [|lia].
    left. left. left.
    assert (En : n = (3450 + 6 * N.of_nat i + N.of_nat j)%N) by lia.
    subst n. split; [lia|].
    replace (3450 + 6 * N.of_nat i + N.of_nat j - 3450)%N
      with (N.of_nat j + N.of_nat i * 6)%N by lia.
    rewrite N.Div0.mod_add, N.mod_small by lia. lia.
Qed.

Lemma moves_shape_true : moves_shape = true.
Proof. vm_compute. reflexivity. Qed.

(** [fixup] writes fixed positions only and reads none of them. *)
Lemma fixup_moves_shape d s :
  In (d, s) fixup_moves -> fixed_position d /\ ~ fixed_position s.
Proof.
  rewrite fixup_moves_N. unfold to_nat_moves. intros Hin.
  apply in_map_iff in Hin as ([dN sN] & [= <- <-] & Hin).
  pose proof moves_shape_true as H. unfold moves_shape in H.
  rewrite forallb_forall in H. specialize (H _ Hin). cbn [fst snd] in H.
  apply andb_true_iff in H as [Hd Hs]. apply negb_true_iff in Hs.
  split; [apply fixed_positionN_spec, Hd|].
  intros Hfix. apply fixed_positionN_spec in Hfix. congruence.
Qed.

Lemma origin_cases ms k :
  origin ms k = k \/ exists d, In (d, origin ms k) ms.
Proof.
  induction ms as [|[d s] ms IH]; [left; reflexivity|].
  cbn [origin]. destruct (origin ms k =? d) eqn:E.
  - right. exists d. left. reflexivity.
  - destruct IH as [IH|[d' IH]]; [left; exact IH|].
    right. exists d'. right. exact IH.
Qed.

Lemma origin_other ms k :
  (forall d s, In (d, s) ms -> d <> k) -> origin ms k = k.
Proof.
  induction ms as [|[d s] ms IH]; intros Hk; [reflexivity|].
  cbn [origin]. rewrite IH by (intros d' s' Hin; apply (Hk d' s'); right; exact Hin).
  destruct (Nat.eqb_spec k d) as [->|_]; [|reflexivity].
  exfalso. apply (Hk d s); [left|]; reflexivity.
Qed.

Lemma origin_unfixed k : ~ fixed_position k -> origin fixup_moves k = k.
Proof.
  intros Hk. apply origin_other. intros d s Hin ->.
  apply Hk. apply (fixup_moves_shape _ _ Hin).
Qed.

Lemma origin_origin k :
  origin fixup_moves (origin fixup_moves k) = origin fixup_moves k.
Proof.
  destruct (origin_cases fixup_moves k) as [E|[d Hin]].
  - rewrite E. exact E.
  - apply origin_unfixed. apply (fixup_moves_shape _ _ Hin).
Qed.

(** What a run of assignments can end in. *)
Lemma run_moves_outcome ms : forall es,
  (exists es', run_moves ms es = Ok es' /\ length es' = length es /\
               Forall (fun m => m.1 < length es /\ m.2 < length es) ms) \/
  run_moves ms es = Undefined VectorRange.
Proof.
  induction ms as [|[d s] ms IH]; intros es.
  - left. exists es. repeat split. constructor.
  - cbn [run_moves]. unfold assign.
    destruct (es !! s) as [e|] eqn:Hs; [|right; reflexivity].
    destruct (decide (d < length es)) as [Hd|Hd]; [|right; reflexivity].
    ok_steps. destruct (IH (<[d := e]> es)) as [(es' & Hrun & Hlen & Hall)|Hund].
    + left. exists es'. rewrite length_insert in Hlen, Hall.
      split; [exact Hrun|]. split; [exact Hlen|].
      constructor; [|exact Hall]. split; [exact Hd|].
      apply lookup_lt_Some in Hs. exact Hs.
    + right. exact Hund.
Qed.

Lemma fixup_last_move : In (3767, 3764) fixup_moves.
Proof.
  rewrite fixup_moves_N. unfold to_nat_moves.
  apply (in_map (fun m : N * N => (N.to_nat m.1, N.to_nat m.2)) _ (3767%N, 3764%N)).
  apply list_elem_of_In, (bool_decide_unpack _). vm_compute. exact I.
Qed.

Lemma fixup_short (es : list DataEntry) :
  length es < 3768 -> fixup es = Undefined VectorRange.
Proof.
  intros Hlen. rewrite fixup_moves_run.
  destruct (run_moves_outcome fixup_moves es) as [(es' & _ & _ & Hall)|Hund];
    [|exact Hund].
  rewrite Forall_forall in Hall.
  specialize (Hall (3767, 3764)). cbn [fst snd] in Hall.
  destruct Hall as [Hd _]; [apply list_elem_of_In, fixup_last_move|lia].
Qed.

(** X3: [fixup] returns exactly on tables of 3768 entries or more; on a
    shorter table one of its assignments indexes the vector beyond its
    size, which is undefined. *)
Theorem fixup_needs_3768 (es : list DataEntry) :
  (3768 <= length es -> exists es', fixup es = Ok es') /\
  (length es < 3768 -> fixup es = Undefined VectorRange).
Proof.
  split; [|apply fixup_short].
  intros Hlen. destruct (fixup_origin es Hlen) as (es' & Hrun & _). eauto.
Qed.

Lemma fixup_returns_long es es' : fixup es = Ok es' -> 3768 <= length es.
Proof.
  intros H. destruct (le_lt_dec 3768 (length es)) as [Hle|Hlt]; [exact Hle|].
  rewrite (fixup_short es Hlt) in H. discriminate H.
Qed.

Lemma fixup_keeps_lookup (es es' : list DataEntry) :
  fixup es = Ok es' ->
  length es' = length es /\
  forall k, ~ fixed_position k -> es' !! k = es !! k.
Proof.
  intros H. pose proof (fixup_returns_long es es' H) as Hlen.
  destruct (fixup_origin es Hlen) as (es'' & Hrun & Hl & Hlook).
  rewrite H in Hrun. injection Hrun as <-.
  split; [exact Hl|]. intros k Hk. rewrite Hlook, origin_unfixed by exact Hk.
  reflexivity.
Qed.

(** X4: [fixup] keeps the length of the table and every entry outside
    the positions it writes: the five positions after each of the 48
    entries 3450 + 6i, the positions 3765 to 3767, 1363 to 1368 and
    1613 to 1618. *)
Theorem fixup_keeps_other_entries (es es' : list DataEntry) :
  fixup es = Ok es' ->
  length es' = length es /\
  forall k, ~ fixed_position k -> es' !! k = es !! k.
Proof. apply fixup_keeps_lookup. Qed.

(** X5: [fixup] is idempotent: a second run finds every position it
    writes already equal to its source and changes nothing. *)
Theorem fixup_idempotent (es es' : list DataEntry) :
  fixup es = Ok es' -> fixup es' = Ok es'.
Proof.
  intros H. pose proof (fixup_returns_long es es' H) as Hlen.
  destruct (fixup_origin es Hlen) as (es1 & Hrun & Hl & Hlook).
  rewrite H in Hrun. injection Hrun as <-.
  destruct (fixup_origin es' ltac:(lia)) as (es2 & Hrun2 & Hl2 & Hlook2).
  rewrite Hrun2. f_equal. apply list_eq. intros k.
  rewrite Hlook2, !Hlook, origin_origin. reflexivity.
Qed.

(** [fixup] on the table of 3768 numbered entries. *)
Lemma fixup_numbered : fixup numbered_entries = Ok fixed_entries.
Proof. vm_compute. reflexivity. Qed.

Lemma fixup_keeps_other_entries_witness :
  fixup numbered_entries = Ok fixed_entries /\
  length fixed_entries = length numbered_entries /\
  forall k, ~ fixed_position k -> fixed_entries !! k = numbered_entries !! k.
Proof.
  split; [exact fixup_numbered|].
  exact (fixup_keeps_other_entries numbered_entries fixed_entries fixup_numbered).
Defined.

Lemma fixup_idempotent_witness :
  fixup numbered_entries = Ok fixed_entries /\
  fixup fixed_entries = Ok fixed_entries.
Proof.
  split; [exact fixup_numbered|].
  exact (fixup_idempotent numbered_entries fixed_entries fixup_numbered).
Defined.

(** ** The run-length decoders *)

(** ** What the run-length decoders make of whole streams *)

Lemma pop_uint8_cons w x rest e :
  pop_uint8 {| data := w; unread := x :: rest; endianess := e |}
  = Ok (x, {| data := w; unread := rest; endianess := e |}).
Proof.
  rewrite (pop_uint8_ok {| data := w; unread := x :: rest; endianess := e |}
             x rest eq_refl).
  reflexivity.
Qed.

Lemma header_then_body (hdr body : list byte) e :
  length hdr = 10 ->
  SpriteBaseDOS (new_buffer (hdr ++ body) e)
  = Ok (header_sprite (new_buffer (hdr ++ body) e),
        {| data := hdr ++ body; unread := body; endianess := e |}).
Proof.
  intros Hh.
  rewrite SpriteBaseDOS_ok
    by (reflexivity || (unfold get_size, new_buffer; cbn [data];
                        rewrite length_app; lia)).
  unfold advance, new_buffer. cbn [data unread endianess].
  rewrite drop_app_length' by (symmetry; exact Hh). reflexivity.
Qed.

Lemma count_stream_length runs : length (count_stream runs) = 2 * length runs.
Proof. induction runs as [|run runs IH]; simpl; lia. Qed.

Lemma mask_loop_runs w e : forall runs fuel result,
  length runs <= fuel ->
  mask_loop fuel {| data := w; unread := count_stream runs; endianess := e |} result
  = Ok (result ++ mask_pixels runs).
Proof.
  induction runs as [|[dr fl] runs IH]; intros fuel result Hfuel;
    rewrite mask_loop_unfold.
  - cbn. rewrite app_nil_r. reflexivity.
  - destruct fuel as [|fuel]; [simpl in Hfuel; lia|].
    cbn [count_stream flat_map fst snd app readable unread].
    rewrite pop_uint8_cons. ok_steps. cbv zeta.
    rewrite pop_uint8_cons. ok_steps. cbv zeta.
    fold (count_stream runs). rewrite IH by (simpl in Hfuel; lia).
    unfold push_words, mask_pixels, zero_pixels. cbn [flat_map fst snd].
    rewrite <- !app_assoc. reflexivity.
Qed.

Lemma overlay_fill_run palette value c : forall fill result,
  palette !! N.to_nat (byte_val value) = Some c ->
  overlay_fill fill palette value result
  = Ok (result ++ mjoin (repeat [b c; g c; r c; value] fill)).
Proof.
  intros fill result Hc. revert result.
  induction fill as [|fill IH]; intros result.
  - cbn. rewrite app_nil_r. reflexivity.
  - cbn [overlay_fill]. unfold palette_at. rewrite Hc. ok_steps.
    rewrite IH. unfold push_pixel. cbn [repeat mjoin list_join].
    rewrite <- !app_assoc. reflexivity.
Qed.

Lemma overlay_loop_runs w e palette value c :
  palette !! N.to_nat (byte_val value) = Some c ->
  forall runs fuel result,
  length runs <= fuel ->
  overlay_loop fuel palette value
    {| data := w; unread := count_stream runs; endianess := e |} result
  = Ok (result ++ overlay_pixels c value runs).
Proof.
  intros Hc. induction runs as [|[dr fl] runs IH]; intros fuel result Hfuel;
    rewrite overlay_loop_unfold.
  - cbn. rewrite app_nil_r. reflexivity.
  - destruct fuel as [|fuel]; [simpl in Hfuel; lia|].
    cbn [count_stream flat_map fst snd app readable unread].
    rewrite pop_uint8_cons. ok_steps. cbv zeta.
    rewrite pop_uint8_cons. ok_steps.
    rewrite (overlay_fill_run palette value c _ _ Hc). ok_steps.
    fold (count_stream runs). rewrite IH by (simpl in Hfuel; lia).
    unfold push_words, overlay_pixels, zero_pixels. cbn [flat_map fst snd].
    rewrite <- !app_assoc. reflexivity.
Qed.

Lemma fill_loop_run w e palette color : forall fills tail result,
  Forall (fun x => N.to_nat (byte_val x + color) < length palette) fills ->
  fill_loop (length fills) color palette
    {| data := w; unread := fills ++ tail; endianess := e |} result
  = Ok ({| data := w; unread := tail; endianess := e |},
        result ++ flat_map (offset_pixel palette color) fills).
Proof.
  induction fills as [|x fills IH]; intros tail result Hin.
  - cbn. rewrite app_nil_r. reflexivity.
  - inversion Hin as [|? ? Hx Hrest]; subst.
    cbn [length fill_loop app]. rewrite pop_uint8_cons. ok_steps. cbv zeta.
    destruct (lookup_lt_is_Some_2 palette _ Hx) as [c Hc].
    unfold palette_at. rewrite Hc. ok_steps.
    rewrite IH by exact Hrest.
    unfold push_pixel. cbn [flat_map]. unfold offset_pixel at 2. rewrite Hc.
    rewrite <- !app_assoc. reflexivity.
Qed.

Lemma transparent_loop_runs w e palette color : forall runs fuel result,
  Forall (run_fits palette color) runs ->
  length runs <= fuel ->
  transparent_loop fuel color palette
    {| data := w; unread := transparent_stream runs; endianess := e |} result
  = Ok (result ++ transparent_pixels palette color runs).
Proof.
  induction runs as [|[dr fills] runs IH]; intros fuel result Hfit Hfuel;
    rewrite transparent_loop_unfold.
  - cbn. rewrite app_nil_r. reflexivity.
  - destruct fuel as [|fuel]; [simpl in Hfuel; lia|].
    inversion Hfit as [|? ? [Hlen Hin] Hrest]; subst. cbn [snd] in Hlen, Hin.
    cbn [transparent_stream flat_map fst snd app readable unread].
    rewrite pop_uint8_cons. ok_steps. cbv zeta.
    rewrite pop_uint8_cons. ok_steps.
    rewrite byte_val_B, Nat2N.id by lia.
    rewrite (fill_loop_run w e palette color fills _ _ Hin). ok_steps.
    fold (transparent_stream runs). rewrite IH by (assumption || (simpl in Hfuel; lia)).
    unfold push_words, transparent_pixels, zero_pixels. cbn [flat_map fst snd].
    rewrite <- !app_assoc. reflexivity.
Qed.

Lemma transparent_stream_length runs :
  length runs <= length (transparent_stream runs).
Proof.
  induction runs as [|run runs IH]; [simpl; lia|].
  cbn [transparent_stream flat_map]. fold (transparent_stream runs).
  rewrite length_app. simpl. lia.
Qed.

(** X6: the mask decoder turns every run (drop, fill) of its stream
    into drop all-zero pixels followed by fill pixels of four 255
    bytes, whatever width and height the header declares. *)
Theorem SpriteDosMask_runs (hdr : list byte) (e : Endianess) (runs : list (byte * byte)) :
  length hdr = 10 ->
  SpriteDosMask (new_buffer (hdr ++ count_stream runs) e)
  = Ok (set_data (header_sprite (new_buffer (hdr ++ count_stream runs) e))
                 (mask_pixels runs)).
Proof.
  intros Hh. unfold SpriteDosMask. rewrite header_then_body by exact Hh. ok_steps.
  cbn [unread]. rewrite mask_loop_runs by (rewrite count_stream_length; lia).
  reflexivity.
Qed.

(** X7: the overlay decoder turns every run (drop, fill) into drop
    all-zero pixels followed by fill copies of one pixel: blue, green,
    red of the palette entry [value] and [value] itself as alpha. *)
Theorem SpriteDosOverlay_runs (hdr : list byte) (e : Endianess)
    (palette : list ColorDOS) (value : byte) (c : ColorDOS)
    (runs : list (byte * byte)) :
  length hdr = 10 ->
  palette !! N.to_nat (byte_val value) = Some c ->
  SpriteDosOverlay (new_buffer (hdr ++ count_stream runs) e) palette value
  = Ok (set_data (header_sprite (new_buffer (hdr ++ count_stream runs) e))
                 (overlay_pixels c value runs)).
Proof.
  intros Hh Hc. unfold SpriteDosOverlay. rewrite header_then_body by exact Hh.
  ok_steps. cbn [unread].
  rewrite (overlay_loop_runs _ _ palette value c Hc)
    by (rewrite count_stream_length; lia).
  reflexivity.
Qed.

(** X8: the transparent decoder turns every run (drop count, fill
    count, palette indexes) into drop all-zero pixels followed by one
    opaque pixel for each index, taken from the palette entry index +
    colour offset, when all those entries are within the palette. *)
Theorem SpriteDosTransparent_runs (hdr : list byte) (e : Endianess)
    (palette : list ColorDOS) (color : N) (runs : list (byte * list byte)) :
  length hdr = 10 ->
  Forall (run_fits palette color) runs ->
  SpriteDosTransparent (new_buffer (hdr ++ transparent_stream runs) e) palette color
  = Ok (set_data (header_sprite (new_buffer (hdr ++ transparent_stream runs) e))
                 (transparent_pixels palette color runs)).
Proof.
  intros Hh Hfit. unfold SpriteDosTransparent.
  rewrite header_then_body by exact Hh. ok_steps. cbn [unread].
  rewrite transparent_loop_runs
    by (assumption || apply transparent_stream_length).
  reflexivity.
Qed.

(** The decoders on two runs behind the header of a sprite three pixels
    wide and one high. *)
Lemma SpriteDosMask_runs_witness :
  length header_3x1 = 10 /\
  SpriteDosMask (new_buffer (header_3x1 ++ count_stream example_runs) EndianessLittle)
  = Ok (set_data
          (header_sprite
             (new_buffer (header_3x1 ++ count_stream example_runs) EndianessLittle))
          (mask_pixels example_runs)).
Proof.
  split; [reflexivity|].
  apply (SpriteDosMask_runs header_3x1 EndianessLittle example_runs). reflexivity.
Defined.

Lemma SpriteDosOverlay_runs_witness :
  length header_3x1 = 10 /\
  example_palette !! N.to_nat (byte_val x80)
  = Some {| r := B 128; g := B 127; b := B 7 |} /\
  SpriteDosOverlay
    (new_buffer (header_3x1 ++ count_stream example_runs) EndianessLittle)
    example_palette x80
  = Ok (set_data
          (header_sprite
             (new_buffer (header_3x1 ++ count_stream example_runs) EndianessLittle))
          (overlay_pixels {| r := B 128; g := B 127; b := B 7 |} x80 example_runs)).
Proof.
  assert (H : example_palette !! N.to_nat (byte_val x80)
              = Some {| r := B 128; g := B 127; b := B 7 |})
    by (vm_compute; reflexivity).
  split; [reflexivity|]. split; [exact H|].
  apply (SpriteDosOverlay_runs header_3x1 EndianessLittle example_palette x80
           {| r := B 128; g := B 127; b := B 7 |} example_runs);
    [reflexivity | exact H].
Defined.

Lemma SpriteDosTransparent_runs_witness :
  length header_3x1 = 10 /\
  Forall (run_fits palette_5 0) example_fills /\
  SpriteDosTransparent
    (new_buffer (header_3x1 ++ transparent_stream example_fills) EndianessLittle)
    palette_5 0
  = Ok (set_data
          (header_sprite
             (new_buffer (header_3x1 ++ transparent_stream example_fills)
                         EndianessLittle))
          (transparent_pixels palette_5 0 example_fills)).
Proof.
  assert (H : Forall (run_fits palette_5 0) example_fills).
  { repeat constructor; apply Nat.ltb_lt; vm_compute; reflexivity. }
  split; [reflexivity|]. split; [exact H|].
  apply (SpriteDosTransparent_runs header_3x1 EndianessLittle palette_5 0
           example_fills); [reflexivity | exact H].
Defined.

(** *** The streams that decode *)

Lemma pop_uint8_next d x d' :
  pop_uint8 d = Ok (x, d') ->
  unread d = x :: unread d' /\ data d' = data d /\ endianess d' = endianess d.
Proof.
  intros H. apply pop_uint8_inv in H as [(rest & Hrest) ->].
  unfold advance. cbn [unread data endianess]. rewrite Hrest. auto.
Qed.

Lemma buffer_eta (d : Buffer) :
  d = {| data := data d; unread := unread d; endianess := endianess d |}.
Proof. destruct d. reflexivity. Qed.

Lemma mask_loop_shape : forall fuel d result result',
  mask_loop fuel d result = Ok result' ->
  exists runs, unread d = count_stream runs.
Proof.
  induction fuel as [|fuel IH]; intros d result result' H;
    rewrite mask_loop_unfold in H; destruct (readable d) eqn:Hread;
    try discriminate;
    try (exists []; apply not_readable_unread; exact Hread).
  apply bind_Ok in H as ([x d1] & Hx & H). cbv beta iota zeta in H.
  apply bind_Ok in H as ([y d2] & Hy & H). cbv beta iota zeta in H.
  apply pop_uint8_next in Hx as (Hx & _). apply pop_uint8_next in Hy as (Hy & _).
  destruct (IH _ _ _ H) as (runs & Hruns).
  exists ((x, y) :: runs). rewrite Hx, Hy, Hruns. reflexivity.
Qed.

Lemma overlay_loop_shape palette value : forall fuel d result result',
  overlay_loop fuel palette value d result = Ok result' ->
  exists runs, unread d = count_stream runs.
Proof.
  induction fuel as [|fuel IH]; intros d result result' H;
    rewrite overlay_loop_unfold in H; destruct (readable d) eqn:Hread;
    try discriminate;
    try (exists []; apply not_readable_unread; exact Hread).
  apply bind_Ok in H as ([x d1] & Hx & H). cbv beta iota zeta in H.
  apply bind_Ok in H as ([y d2] & Hy & H). cbv beta iota zeta in H.
  apply bind_Ok in H as (result1 & _ & H).
  apply pop_uint8_next in Hx as (Hx & _). apply pop_uint8_next in Hy as (Hy & _).
  destruct (IH _ _ _ H) as (runs & Hruns).
  exists ((x, y) :: runs). rewrite Hx, Hy, Hruns. reflexivity.
Qed.

Lemma fill_loop_shape palette color : forall fill d result d' result',
  fill_loop fill color palette d result = Ok (d', result') ->
  exists fills, length fills = fill /\ unread d = fills ++ unread d' /\
    Forall (fun x => N.to_nat (byte_val x + color) < length palette) fills.
Proof.
  induction fill as [|fill IH]; intros d result d' result' H.
  - injection H as <- <-. exists []. auto.
  - cbn [fill_loop] in H.
    apply bind_Ok in H as ([x d1] & Hx & H). cbv beta iota zeta in H.
    apply bind_Ok in H as (c & Hc & H).
    apply pop_uint8_next in Hx as (Hx & _).
    destruct (IH _ _ _ _ H) as (fills & Hlen & Hfills & Hall).
    exists (x :: fills). split; [simpl; lia|]. split.
    + rewrite Hx, Hfills. reflexivity.
    + constructor; [|exact Hall].
      unfold palette_at in Hc.
      destruct (palette !! N.to_nat (byte_val x + color)) eqn:E; [|discriminate Hc].
      apply lookup_lt_Some in E. exact E.
Qed.

Lemma transparent_loop_shape color palette : forall fuel d result result',
  transparent_loop fuel color palette d result = Ok result' ->
  exists runs, unread d = transparent_stream runs /\
               Forall (run_fits palette color) runs.
Proof.
  induction fuel as [|fuel IH]; intros d result result' H;
    rewrite transparent_loop_unfold in H; destruct (readable d) eqn:Hread;
    try discriminate;
    try (exists []; split; [apply not_readable_unread; exact Hread | constructor]).
  apply bind_Ok in H as ([x d1] & Hx & H). cbv beta iota zeta in H.
  apply bind_Ok in H as ([y d2] & Hy & H). cbv beta iota zeta in H.
  apply bind_Ok in H as ([d3 result3] & Hfill & H). cbv beta iota in H.
  apply pop_uint8_next in Hx as (Hx & _). apply pop_uint8_next in Hy as (Hy & _).
  apply fill_loop_shape in Hfill as (fills & Hlen & Hfills & Hall).
  destruct (IH _ _ _ H) as (runs & Hruns & Hfit).
  pose proof (Byte.to_N_bounded y) as Hy256.
  exists ((x, fills) :: runs). split.
  - rewrite Hx, Hy, Hfills, Hruns.
    cbn [transparent_stream flat_map fst snd app].
    rewrite Hlen, N2Nat.id. fold (byte_val y). rewrite B_byte_val.
    rewrite <- ?app_assoc. reflexivity.
  - constructor; [|exact Hfit]. split; [|exact Hall].
    cbn [snd]. rewrite Hlen. unfold byte_val. lia.
Qed.

(** The header and the body of a buffer as [get_object] hands it out. *)
Lemma fresh_header_body (d : Buffer) (body : list byte) :
  unread d = data d -> 10 <= get_size d ->
  unread (advance 10 d) = body ->
  length (take 10 (data d)) = 10 /\
  d = new_buffer (take 10 (data d) ++ body) (endianess d).
Proof.
  intros Hfresh Hsize Hbody. unfold get_size in Hsize.
  split; [rewrite length_take; lia|].
  unfold advance in Hbody. cbn [unread] in Hbody. rewrite Hfresh in Hbody.
  rewrite <- Hbody, take_drop. rewrite (buffer_eta d) at 1. rewrite Hfresh.
  reflexivity.
Qed.

Lemma SpriteBaseDOS_long d r :
  SpriteBaseDOS d = Ok r -> 10 <= get_size d.
Proof.
  intros H. destruct (decide (get_size d < 10)) as [Hs|Hs]; [|lia].
  rewrite SpriteBaseDOS_short in H by exact Hs. discriminate H.
Qed.

(** X9: the mask decoder returns only on a body that is a sequence of
    whole runs (drop, fill), and then with the pixels of those runs:
    no other bytes after the header decode. *)
Theorem SpriteDosMask_stream (d : Buffer) (s : Sprite) :
  unread d = data d ->
  SpriteDosMask d = Ok s ->
  exists hdr runs,
    length hdr = 10 /\ data d = hdr ++ count_stream runs /\
    s = set_data (header_sprite d) (mask_pixels runs).
Proof.
  intros Hfresh H. unfold SpriteDosMask in H.
  apply bind_Ok in H as ([base d1] & Hbase & H). cbv beta iota in H.
  pose proof (SpriteBaseDOS_long _ _ Hbase) as Hsize.
  rewrite SpriteBaseDOS_ok in Hbase by assumption. injection Hbase as <- <-.
  apply bind_Ok in H as (result & Hloop & H). injection H as <-.
  destruct (mask_loop_shape _ _ _ _ Hloop) as (runs & Hruns).
  destruct (fresh_header_body d _ Hfresh Hsize Hruns) as [Hh Hd].
  exists (take 10 (data d)), runs. split; [exact Hh|]. split.
  { rewrite Hd at 1. reflexivity. }
  rewrite (buffer_eta (advance 10 d)), Hruns in Hloop.
  rewrite mask_loop_runs in Hloop
    by (cbn [unread]; rewrite count_stream_length; lia).
  injection Hloop as <-. reflexivity.
Qed.

(** X10: the overlay decoder returns only on a body that is a sequence
    of whole runs (drop, fill), and then with the pixels of those runs
    in the colour of the palette entry [value]. *)
Theorem SpriteDosOverlay_stream (d : Buffer) (palette : list ColorDOS)
    (value : byte) (c : ColorDOS) (s : Sprite) :
  unread d = data d ->
  palette !! N.to_nat (byte_val value) = Some c ->
  SpriteDosOverlay d palette value = Ok s ->
  exists hdr runs,
    length hdr = 10 /\ data d = hdr ++ count_stream runs /\
    s = set_data (header_sprite d) (overlay_pixels c value runs).
Proof.
  intros Hfresh Hc H. unfold SpriteDosOverlay in H.
  apply bind_Ok in H as ([base d1] & Hbase & H). cbv beta iota in H.
  pose proof (SpriteBaseDOS_long _ _ Hbase) as Hsize.
  rewrite SpriteBaseDOS_ok in Hbase by assumption. injection Hbase as <- <-.
  apply bind_Ok in H as (result & Hloop & H). injection H as <-.
  destruct (overlay_loop_shape _ _ _ _ _ _ Hloop) as (runs & Hruns).
  destruct (fresh_header_body d _ Hfresh Hsize Hruns) as [Hh Hd].
  exists (take 10 (data d)), runs. split; [exact Hh|]. split.
  { rewrite Hd at 1. reflexivity. }
  rewrite (buffer_eta (advance 10 d)), Hruns in Hloop.
  rewrite (overlay_loop_runs _ _ _ _ c Hc) in Hloop
    by (cbn [unread]; rewrite count_stream_length; lia).
  injection Hloop as <-. reflexivity.
Qed.

(** X11: the transparent decoder returns only on a body that is a
    sequence of whole runs (drop count, fill count, that many palette
    indexes), and when the indexes of those runs, with the colour
    offset, are all within the palette, the sprite holds the pixels of
    those runs.  Nothing is said of the pixels that an index beyond the
    palette yields. *)
Theorem SpriteDosTransparent_stream (d : Buffer) (palette : list ColorDOS)
    (color : N) (s : Sprite) :
  unread d = data d ->
  SpriteDosTransparent d palette color = Ok s ->
  exists hdr runs,
    length hdr = 10 /\ data d = hdr ++ transparent_stream runs /\
    Forall (fun run : byte * list byte => length run.2 < 256) runs /\
    (Forall (run_fits palette color) runs ->
     s = set_data (header_sprite d) (transparent_pixels palette color runs)).
Proof.
  intros Hfresh H. unfold SpriteDosTransparent in H.
  apply bind_Ok in H as ([base d1] & Hbase & H). cbv beta iota in H.
  pose proof (SpriteBaseDOS_long _ _ Hbase) as Hsize.
  rewrite SpriteBaseDOS_ok in Hbase by assumption. injection Hbase as <- <-.
  apply bind_Ok in H as (result & Hloop & H). injection H as <-.
  destruct (transparent_loop_shape _ _ _ _ _ _ Hloop) as (runs & Hruns & Hfit).
  destruct (fresh_header_body d _ Hfresh Hsize Hruns) as [Hh Hd].
  exists (take 10 (data d)), runs. split; [exact Hh|]. split.
  { rewrite Hd at 1. reflexivity. }
  split.
  { apply (Forall_impl _ _ _ Hfit). intros run [Hlen _]. exact Hlen. }
  intros Hin.
  rewrite (buffer_eta (advance 10 d)), Hruns in Hloop.
  rewrite transparent_loop_runs in Hloop
    by (try exact Hin; cbn [unread]; apply transparent_stream_length).
  injection Hloop as <-. reflexivity.
Qed.

(** The decoders on [run_example] and on [one_pixel]. *)
Lemma SpriteDosMask_stream_witness :
  exists hdr runs,
    length hdr = 10 /\ data run_example = hdr ++ count_stream runs /\
    set_data (header_sprite run_example)
             (repeat x00 8 ++ repeat xff 4 ++ repeat xff 12)
    = set_data (header_sprite run_example) (mask_pixels runs).
Proof.
  apply (SpriteDosMask_stream run_example); [reflexivity|].
  vm_compute. reflexivity.
Defined.

Lemma SpriteDosOverlay_stream_witness :
  exists hdr runs,
    length hdr = 10 /\ data run_example = hdr ++ count_stream runs /\
    set_data (header_sprite run_example)
             (repeat x00 8 ++ mjoin (repeat [B 7; B 127; B 128; x80] 4))
    = set_data (header_sprite run_example)
               (overlay_pixels {| r := B 128; g := B 127; b := B 7 |} x80 runs).
Proof.
  apply (SpriteDosOverlay_stream run_example example_palette x80);
    [reflexivity | vm_compute; reflexivity | vm_compute; reflexivity].
Defined.

Lemma SpriteDosTransparent_stream_witness :
  exists hdr runs,
    length hdr = 10 /\ data one_pixel = hdr ++ transparent_stream runs /\
    Forall (fun run : byte * list byte => length run.2 < 256) runs /\
    (Forall (run_fits example_palette 64) runs ->
     one_pixel_decoded 64
     = set_data (header_sprite one_pixel)
                (transparent_pixels example_palette 64 runs)).
Proof.
  apply (SpriteDosTransparent_stream one_pixel example_palette 64);
    [reflexivity | vm_compute; reflexivity].
Defined.

(** ** The palette *)

Lemma colors_of_lookup : forall k bs,
  3 * k + 2 < length bs ->
  exists x y z,
    bs !! (3 * k) = Some x /\ bs !! (3 * k + 1) = Some y /\
    bs !! (3 * k + 2) = Some z /\
    colors_of bs !! k = Some (mkColorDOS x y z).
Proof.
  induction k as [|k IH]; intros bs Hlen.
  - destruct bs as [|x [|y [|z bs]]]; simpl in Hlen; try lia.
    exists x, y, z. auto.
  - destruct bs as [|x [|y [|z bs]]]; simpl in Hlen; try lia.
    destruct (IH bs ltac:(lia)) as (x' & y' & z' & Hx & Hy & Hz & Hc).
    exists x', y', z'.
    replace (3 * S k) with (S (S (S (3 * k)))) by lia.
    cbn [colors_of]. simpl. auto.
Qed.

(** X12: a palette that [get_dos_palette] resolves is an object of
    exactly 768 bytes seen as 256 colours: colour k is the bytes 3k,
    3k+1 and 3k+2 of the object as red, green and blue. *)
Theorem get_dos_palette_colours (ds : DataSource) (i : nat) (palette : list ColorDOS) :
  get_dos_palette ds i = Ok (Some palette) ->
  exists d, get_object ds i = Ok (Some d) /\ get_size d = 768 /\
    length palette = 256 /\
    forall k, k < 256 ->
      exists x y z,
        data d !! (3 * k) = Some x /\ data d !! (3 * k + 1) = Some y /\
        data d !! (3 * k + 2) = Some z /\
        palette !! k = Some {| r := x; g := y; b := z |}.
Proof.
  intros H. pose proof (get_dos_palette_length _ _ _ H) as Hlen.
  unfold get_dos_palette in H.
  apply bind_Ok in H as ([d|] & Hobj & H); [|discriminate H].
  case_decide as Hsize; [discriminate H|]. injection H as <-.
  assert (Hs : get_size d = 768).
  { destruct (decide (get_size d = sizeof_ColorDOS * 256)) as [E|E];
      [exact E | contradiction]. }
  exists d. split; [exact Hobj|]. split; [exact Hs|]. split; [exact Hlen|].
  intros k Hk. apply colors_of_lookup. unfold get_size in Hs. lia.
Qed.

Lemma get_dos_palette_colours_witness :
  exists d, get_object example_source 3 = Ok (Some d) /\ get_size d = 768 /\
    length example_palette = 256 /\
    forall k, k < 256 ->
      exists x y z,
        data d !! (3 * k) = Some x /\ data d !! (3 * k + 1) = Some y /\
        data d !! (3 * k + 2) = Some z /\
        example_palette !! k = Some {| r := x; g := y; b := z |}.
Proof.
  apply (get_dos_palette_colours example_source 3 example_palette).
  vm_compute. reflexivity.
Defined.

(** ** Undefined behaviour of the facade *)

(** ** What the decoders and get_sprite_parts never do *)

Lemma bind_Undefined {A C} (m : outcome A) (k : A -> outcome C) f :
  m ≫= k = Undefined f ->
  m = Undefined f \/ exists a, m = Ok a /\ k a = Undefined f.
Proof.
  destruct m as [a|e|f']; intros H.
  - right. exists a. auto.
  - discriminate H.
  - left. injection H as <-. reflexivity.
Qed.

Lemma get_object_defined ds i f : get_object ds i <> Undefined f.
Proof.
  unfold get_object. case_decide; [discriminate|].
  destruct (entries ds !! i); [|discriminate].
  case_decide; [discriminate|].
  unfold get_subbuffer. case_decide; discriminate.
Qed.

Lemma get_dos_palette_defined ds i f : get_dos_palette ds i <> Undefined f.
Proof.
  unfold get_dos_palette. pose proof (get_object_defined ds i f) as H.
  destruct (get_object ds i) as [[d|]| |]; try discriminate.
  - cbn. case_decide; discriminate.
  - intros [= ->]. apply H. reflexivity.
Qed.

Lemma SpriteDosSolid_defined d (palette : list ColorDOS) f :
  length palette = 256 -> SpriteDosSolid d palette <> Undefined f.
Proof.
  intros Hpal. unfold SpriteDosSolid.
  pose proof (SpriteBaseDOS_defined d f) as Hbase.
  destruct (SpriteBaseDOS d) as [[base d1]| |]; try discriminate.
  - ok_steps. case_decide; [discriminate|].
    rewrite (solid_loop_run palette Hpal) by lia. discriminate.
  - intros [= ->]. apply Hbase. reflexivity.
Qed.

Lemma fill_loop_defined (palette : list ColorDOS) :
  length palette = 256 ->
  forall fill d result f, fill_loop fill 0 palette d result <> Undefined f.
Proof.
  intros Hpal. induction fill as [|fill IH]; intros d result f; [discriminate|].
  cbn [fill_loop]. pose proof (pop_uint8_defined d f) as Hpop.
  destruct (pop_uint8 d) as [[x d1]| |]; try discriminate.
  - ok_steps. cbv zeta. rewrite N.add_0_r.
    destruct (palette_at_byte palette x Hpal) as (c & _ & ->). ok_steps. apply IH.
  - intros [= ->]. apply Hpop. reflexivity.
Qed.

Lemma transparent_loop_defined (palette : list ColorDOS) :
  length palette = 256 ->
  forall fuel d result f,
    length (unread d) <= fuel ->
    transparent_loop fuel 0 palette d result <> Undefined f.
Proof.
  intros Hpal. induction fuel as [|fuel IH]; intros d result f Hfuel;
    rewrite transparent_loop_unfold; destruct (readable d) eqn:Hread;
    try discriminate.
  - apply readable_unread in Hread as (x & rest & Hx).
    rewrite Hx in Hfuel. simpl in Hfuel. lia.
  - apply readable_unread in Hread as (x0 & rest0 & Hx0).
    pose proof (pop_uint8_defined d f) as Hpop1.
    destruct (pop_uint8 d) as [[x d1]| |] eqn:E1; try discriminate.
    2:{ intros [= ->]. apply Hpop1. reflexivity. }
    apply pop_uint8_inv in E1 as [_ ->].
    change (Ok ?a ≫= ?k) with (k a). cbv beta iota zeta.
    pose proof (pop_uint8_defined (advance 1 d) f) as Hpop2.
    destruct (pop_uint8 (advance 1 d)) as [[y d2]| |] eqn:E2; try discriminate.
    2:{ intros [= ->]. apply Hpop2. reflexivity. }
    apply pop_uint8_inv in E2 as [_ ->].
    change (Ok ?a ≫= ?k) with (k a). cbv beta iota.
    pose proof (fill_loop_defined palette Hpal (N.to_nat (byte_val y))
                  (advance 1 (advance 1 d))
                  (push_words result x00 (byte_val x)) f) as Hfill.
    destruct (fill_loop _ _ _ _ _) as [[d3 result3]| |] eqn:E3; try discriminate.
    + apply fill_loop_inv in E3 as [-> _].
      change (Ok ?a ≫= ?k) with (k a). cbv beta iota.
      apply IH. simpl. rewrite !length_drop. rewrite Hx0 in *. simpl in *. lia.
    + intros [= ->]. apply Hfill. reflexivity.
Qed.

Lemma SpriteDosTransparent_defined d (palette : list ColorDOS) f :
  length palette = 256 -> SpriteDosTransparent d palette 0 <> Undefined f.
Proof.
  intros Hpal. unfold SpriteDosTransparent.
  pose proof (SpriteBaseDOS_defined d f) as Hbase.
  destruct (SpriteBaseDOS d) as [[base d1]| |]; try discriminate.
  - ok_steps.
    pose proof (transparent_loop_defined palette Hpal (length (unread d1)) d1 [] f
                  ltac:(lia)) as Hloop.
    destruct (transparent_loop _ _ _ _ _); try discriminate.
    intros [= ->]. apply Hloop. reflexivity.
  - intros [= ->]. apply Hbase. reflexivity.
Qed.

Lemma overlay_fill_defined (palette : list ColorDOS) value :
  length palette = 256 ->
  forall fill result f, overlay_fill fill palette value result <> Undefined f.
Proof.
  intros Hpal. induction fill as [|fill IH]; intros result f; [discriminate|].
  cbn [overlay_fill].
  destruct (palette_at_byte palette value Hpal) as (c & _ & ->). ok_steps. apply IH.
Qed.

Lemma overlay_loop_defined (palette : list ColorDOS) value :
  length palette = 256 ->
  forall fuel d result f,
    length (unread d) <= fuel ->
    overlay_loop fuel palette value d result <> Undefined f.
Proof.
  intros Hpal fuel d result f Hfuel.
  pose proof (overlay_loop_bound palette value fuel d result Hfuel) as Hbound.
  intros H. assert (f = LoopBound) as ->; [|apply Hbound; exact H].
  clear Hbound Hfuel. revert d result H.
  induction fuel as [|fuel IH]; intros d result H;
    rewrite overlay_loop_unfold in H; destruct (readable d);
    try discriminate; try (injection H as <-; reflexivity).
  apply bind_Undefined in H as [H|([x d1] & _ & H)];
    [exfalso; apply (pop_uint8_defined _ _ H)|]. cbv beta iota zeta in H.
  apply bind_Undefined in H as [H|([y d2] & _ & H)];
    [exfalso; apply (pop_uint8_defined _ _ H)|]. cbv beta iota in H.
  apply bind_Undefined in H as [H|(result' & _ & H)];
    [exfalso; apply (overlay_fill_defined palette value Hpal _ _ _ H)|].
  apply (IH _ _ H).
Qed.

Lemma SpriteDosOverlay_defined d (palette : list ColorDOS) value f :
  length palette = 256 -> SpriteDosOverlay d palette value <> Undefined f.
Proof.
  intros Hpal. unfold SpriteDosOverlay.
  pose proof (SpriteBaseDOS_defined d f) as Hbase.
  destruct (SpriteBaseDOS d) as [[base d1]| |]; try discriminate.
  - ok_steps.
    pose proof (overlay_loop_defined palette value Hpal (length (unread d1)) d1 [] f
                  ltac:(lia)) as Hloop.
    destruct (overlay_loop _ _ _ _ _); try discriminate.
    intros [= ->]. apply Hloop. reflexivity.
  - intros [= ->]. apply Hbase. reflexivity.
Qed.

Lemma mask_loop_fault : forall fuel d result f,
  mask_loop fuel d result = Undefined f -> f = LoopBound.
Proof.
  induction fuel as [|fuel IH]; intros d result f H;
    rewrite mask_loop_unfold in H; destruct (readable d);
    try discriminate; try (injection H as <-; reflexivity).
  apply bind_Undefined in H as [H|([x d1] & _ & H)];
    [exfalso; apply (pop_uint8_defined _ _ H)|]. cbv beta iota zeta in H.
  apply bind_Undefined in H as [H|([y d2] & _ & H)];
    [exfalso; apply (pop_uint8_defined _ _ H)|]. cbv beta iota zeta in H.
  apply (IH _ _ _ H).
Qed.

Lemma SpriteDosMask_defined d f : SpriteDosMask d <> Undefined f.
Proof.
  unfold SpriteDosMask. intros H.
  apply bind_Undefined in H as [H|([base d1] & _ & H)];
    [apply (SpriteBaseDOS_defined _ _ H)|]. cbv beta iota in H.
  apply bind_Undefined in H as [H|(result & _ & H)]; [|discriminate H].
  pose proof (mask_loop_fault _ _ _ _ H) as ->.
  apply (mask_loop_bound (length (unread d1)) d1 []); [lia | exact H].
Qed.

Lemma decode_declared_defined ds res i (palette : list ColorDOS) f :
  length palette = 256 -> decode_declared ds res i palette <> Undefined f.
Proof.
  intros Hpal H. unfold decode_declared in H.
  apply bind_Undefined in H as [H|([data|] & _ & H)];
    [apply (get_object_defined _ _ _ H) | | discriminate H].
  destruct (sprite_type (dos_resources res)); [discriminate H| | | |];
    apply bind_Undefined in H as [H|(sprite & _ & H)]; try discriminate H.
  - apply (SpriteDosSolid_defined _ _ _ Hpal H).
  - apply (SpriteDosTransparent_defined _ _ _ Hpal H).
  - apply (SpriteDosOverlay_defined _ _ _ _ Hpal H).
  - apply (SpriteDosMask_defined _ _ H).
Qed.

(** X13: for every kind but the serf torso, [get_sprite_parts] runs into
    no undefined behaviour of its own: no null buffer is dereferenced
    and no palette entry beyond the 256 of a resolved palette is read,
    so the call is as defined as [separate_sprites] is. *)
Theorem get_sprite_parts_defined
    (get_resource_count : Resource -> nat)
    (separate_sprites : Sprite -> Sprite -> outcome (option PSprite * option PSprite))
    (stick : Sprite -> Sprite -> nat -> nat -> Sprite)
    (ds : DataSource) (res : Resource) (i : nat) (f : fault) :
  res <> AssetSerfTorso ->
  (forall s1 s2, separate_sprites s1 s2 <> Undefined f) ->
  get_sprite_parts get_resource_count separate_sprites stick ds res i <> Undefined f.
Proof.
  intros Hres Hsep H. unfold get_sprite_parts in H.
  case_decide; [discriminate H|].
  apply bind_Undefined in H as [H|([palette|] & Hpal & H)];
    [apply (get_dos_palette_defined _ _ _ H) | | discriminate H].
  apply get_dos_palette_length in Hpal.
  destruct res; try contradiction;
    try (apply (decode_declared_defined _ _ _ _ _ Hpal H)).
  - apply bind_Undefined in H as [H|([data|] & _ & H)];
      [apply (get_object_defined _ _ _ H) | | discriminate H].
    apply bind_Undefined in H as [H|(sprite & _ & H)]; [|discriminate H].
    apply (SpriteDosTransparent_defined _ _ _ Hpal H).
  - apply bind_Undefined in H as [H|([data|] & _ & H)];
      [apply (get_object_defined _ _ _ H) | | discriminate H].
    apply bind_Undefined in H as [H|(sprite & _ & H)]; [|discriminate H].
    apply (SpriteDosTransparent_defined _ _ _ Hpal H).
  - case_decide as Hflag;
      [|apply (decode_declared_defined _ _ _ _ _ Hpal H)].
    cbv zeta in H.
    apply bind_Undefined in H as [H|([data|] & _ & H)];
      [apply (get_object_defined _ _ _ H) | | discriminate H].
    apply bind_Undefined in H as [H|(s1 & _ & H)];
      [apply (SpriteDosTransparent_defined _ _ _ Hpal H)|].
    apply bind_Undefined in H as [H|([data2|] & _ & H)];
      [apply (get_object_defined _ _ _ H) | | discriminate H].
    apply bind_Undefined in H as [H|(s2 & _ & H)];
      [apply (SpriteDosTransparent_defined _ _ _ Hpal H)|].
    apply bind_Undefined in H as [H|(mi & _ & H)]; [|discriminate H].
    apply (Hsep s1 s2 H).
Qed.

Lemma example_separate_defined (s1 s2 : Sprite) (f : fault) :
  example_separate s1 s2 <> Undefined f.
Proof. unfold example_separate. case_decide; discriminate. Qed.

(** The flag frame 130 of [example_source]. *)
Lemma get_sprite_parts_defined_witness :
  get_sprite_parts example_count example_separate example_stick
    example_source AssetMapObject 130 <> Undefined NullDereference.
Proof.
  apply (get_sprite_parts_defined example_count example_separate example_stick
           example_source AssetMapObject 130 NullDereference).
  - discriminate.
  - intros s1 s2. apply example_separate_defined.
Defined.

(** ** The facade, sounds and check *)

(** ** More on get_sprite_parts *)

(** X14: the slot of the decoded sprite in the returned pair.  For a
    request within the count of its kind, with the palette resolved
    and the object present, that is neither a serf torso nor one of the
    flag frames 128 to 143 of the map objects, [get_sprite_parts]
    returns exactly when the decoder of the kind returns: a font kind
    returns the object decoded as a transparent sprite as the first
    component (the mask) and no image; every kind with a sprite
    encoding, the mask kinds included, returns the object decoded by
    that encoding as the second component (the image) and no mask; a
    kind without encoding returns neither. *)
Theorem get_sprite_parts_slots
    (get_resource_count : Resource -> nat)
    (separate_sprites : Sprite -> Sprite -> outcome (option PSprite * option PSprite))
    (stick : Sprite -> Sprite -> nat -> nat -> Sprite)
    (ds : DataSource) (res : Resource) (i : nat)
    (palette : list ColorDOS) (range : Buffer) (mask image : option Sprite) :
  i < get_resource_count res ->
  get_dos_palette ds (dos_palette (dos_resources res)) = Ok (Some palette) ->
  get_object ds (index (dos_resources res) + i) = Ok (Some range) ->
  res <> AssetSerfTorso ->
  ~ (res = AssetMapObject /\ 128 <= i <= 143) ->
  get_sprite_parts get_resource_count separate_sprites stick ds res i
  = Ok (mask, image)
  <->
  match res with
  | AssetFont | AssetFontShadow =>
      image = None /\
      exists s, mask = Some s /\ SpriteDosTransparent range palette 0 = Ok s
  | _ =>
      mask = None /\
      match sprite_type (dos_resources res) with
      | SpriteTypeUnknown => image = None
      | SpriteTypeSolid =>
          exists s, image = Some s /\ SpriteDosSolid range palette = Ok s
      | SpriteTypeTransparent =>
          exists s, image = Some s /\ SpriteDosTransparent range palette 0 = Ok s
      | SpriteTypeOverlay =>
          exists s, image = Some s /\ SpriteDosOverlay range palette x80 = Ok s
      | SpriteTypeMask =>
          exists s, image = Some s /\ SpriteDosMask range = Ok s
      end
  end.
Proof.
  intros Hcount Hpal Hobj Htorso Hflag.
  assert (Himage : forall m : outcome Sprite,
            (sprite ← m; Ok (None, Some sprite)) = Ok (mask, image) <->
            mask = None /\ exists s, image = Some s /\ m = Ok s).
  { intros m. split.
    - intros H. apply bind_Ok in H as (sprite & Hs & H). injection H as <- <-.
      split; [reflexivity | exists sprite; split; [reflexivity | exact Hs]].
    - intros [-> (sprite & -> & ->)]. reflexivity. }
  assert (Hmask : forall m : outcome Sprite,
            (sprite ← m; Ok (Some sprite, None)) = Ok (mask, image) <->
            image = None /\ exists s, mask = Some s /\ m = Ok s).
  { intros m. split.
    - intros H. apply bind_Ok in H as (sprite & Hs & H). injection H as <- <-.
      split; [reflexivity | exists sprite; split; [reflexivity | exact Hs]].
    - intros [-> (sprite & -> & ->)]. reflexivity. }
  assert (Hdecl : decode_declared ds res i palette = Ok (mask, image) <->
    mask = None /\
    match sprite_type (dos_resources res) with
    | SpriteTypeUnknown => image = None
    | SpriteTypeSolid =>
        exists s, image = Some s /\ SpriteDosSolid range palette = Ok s
    | SpriteTypeTransparent =>
        exists s, image = Some s /\ SpriteDosTransparent range palette 0 = Ok s
    | SpriteTypeOverlay =>
        exists s, image = Some s /\ SpriteDosOverlay range palette x80 = Ok s
    | SpriteTypeMask =>
        exists s, image = Some s /\ SpriteDosMask range = Ok s
    end).
  { unfold decode_declared. rewrite Hobj. ok_steps.
    destruct (sprite_type (dos_resources res)); try apply Himage.
    split; [intros [= <- <-]; split; reflexivity | intros [-> ->]; reflexivity]. }
  unfold get_sprite_parts.
  rewrite decide_False by lia. rewrite Hpal. ok_steps.
  destruct res; try (exact Hdecl); try (contradiction Htorso; reflexivity).
  - rewrite Hobj. ok_steps. apply Hmask.
  - rewrite Hobj. ok_steps. apply Hmask.
  - rewrite decide_False by (intros Hf; apply Hflag; split; [reflexivity | lia]).
    exact Hdecl.
Qed.

(** X15: a serf-torso request whose torso decodes but whose arms object
    is absent hands the null buffer to the arms decoder, which
    dereferences it. *)
Theorem serf_torso_absent_arms
    (get_resource_count : Resource -> nat)
    (separate_sprites : Sprite -> Sprite -> outcome (option PSprite * option PSprite))
    (stick : Sprite -> Sprite -> nat -> nat -> Sprite)
    (ds : DataSource) (i : nat) (palette : list ColorDOS)
    (range : Buffer) (torso torso2 : Sprite)
    (mi : option PSprite * option PSprite) :
  i < get_resource_count AssetSerfTorso ->
  get_dos_palette ds 3 = Ok (Some palette) ->
  get_object ds (2500 + i) = Ok (Some range) ->
  SpriteDosTransparent range palette 64 = Ok torso ->
  SpriteDosTransparent range palette 72 = Ok torso2 ->
  separate_sprites torso torso2 = Ok mi ->
  get_object ds (DATA_SERF_ARMS + i) = Ok None ->
  get_sprite_parts get_resource_count separate_sprites stick ds AssetSerfTorso i
  = Undefined NullDereference.
Proof.
  intros Hcount Hpal Hobj Ht1 Ht2 Hsep Harms.
  unfold get_sprite_parts. rewrite decide_False by lia.
  change (dos_palette (dos_resources AssetSerfTorso)) with 3.
  rewrite Hpal. ok_steps.
  change (index (dos_resources AssetSerfTorso)) with 2500.
  rewrite Hobj. ok_steps. rewrite Ht1. ok_steps. rewrite Ht2. ok_steps.
  rewrite Hsep. ok_steps. rewrite Harms. reflexivity.
Qed.

(** ** Sounds and music *)

Lemma clip_object_small (base : nat) (index : N) :
  (N.of_nat base + index <= SIZE_MAX)%N ->
  clip_object base index = base + N.to_nat index.
Proof.
  intros H. unfold clip_object, size_add.
  rewrite N.mod_small by (unfold SIZE_MAX in *; lia). lia.
Qed.

Lemma clip_object_wrap (base : nat) (index : N) :
  (N.of_nat base <= SIZE_MAX)%N ->
  (index <= SIZE_MAX)%N -> (SIZE_MAX < N.of_nat base + index)%N ->
  clip_object base index < base.
Proof.
  intros Hb Hi H. unfold clip_object, size_add, SIZE_MAX in *.
  assert (E : ((N.of_nat base + index) mod (18446744073709551615 + 1)
               = N.of_nat base + index - 18446744073709551616)%N).
  { symmetry. apply (N.mod_unique _ _ 1); lia. }
  rewrite E. lia.
Qed.

(** X16: [get_sound] and [get_music] look up the object base + index,
    the sum taken in [size_t]: object 3900 + index, or 3990 + index,
    while the sum does not exceed SIZE_MAX, and an object below the
    base when it wraps.  They return null for an absent object and for
    a conversion that throws, and hand out what the converter returns;
    the only exception that leaves them is one of [get_object]. *)
Theorem get_sound_music_catch
    (ConvertorSFX2WAV : Buffer -> Z -> outcome Buffer)
    (ConvertorXMI2MID : Buffer -> outcome Buffer)
    (ds : DataSource) (i : N) :
  let sound := clip_object DATA_SFX_BASE i in
  let music := clip_object DATA_MUSIC_GAME i in
  ((3900 + i <= SIZE_MAX)%N -> sound = 3900 + N.to_nat i) /\
  ((3990 + i <= SIZE_MAX)%N -> music = 3990 + N.to_nat i) /\
  ((i <= SIZE_MAX)%N -> (SIZE_MAX < 3900 + i)%N -> sound < 3900) /\
  ((i <= SIZE_MAX)%N -> (SIZE_MAX < 3990 + i)%N -> music < 3990) /\
  (get_object ds sound = Ok None ->
   get_sound ConvertorSFX2WAV ds i = Ok None) /\
  (get_object ds music = Ok None ->
   get_music ConvertorXMI2MID ds i = Ok None) /\
  (forall data e,
     get_object ds sound = Ok (Some data) ->
     ConvertorSFX2WAV data (-32)%Z = Throw e ->
     get_sound ConvertorSFX2WAV ds i = Ok None) /\
  (forall data e,
     get_object ds music = Ok (Some data) ->
     ConvertorXMI2MID data = Throw e ->
     get_music ConvertorXMI2MID ds i = Ok None) /\
  (forall data wav,
     get_object ds sound = Ok (Some data) ->
     ConvertorSFX2WAV data (-32)%Z = Ok wav ->
     get_sound ConvertorSFX2WAV ds i = Ok (Some wav)) /\
  (forall data mid,
     get_object ds music = Ok (Some data) ->
     ConvertorXMI2MID data = Ok mid ->
     get_music ConvertorXMI2MID ds i = Ok (Some mid)) /\
  (forall e, get_sound ConvertorSFX2WAV ds i = Throw e ->
             get_object ds sound = Throw e) /\
  (forall e, get_music ConvertorXMI2MID ds i = Throw e ->
             get_object ds music = Throw e).
Proof.
  intros sound music. unfold get_sound, get_music. fold sound music.
  split; [intros H; apply (clip_object_small DATA_SFX_BASE i); exact H|].
  split; [intros H; apply (clip_object_small DATA_MUSIC_GAME i); exact H|].
  split; [intros Hi H; apply (clip_object_wrap DATA_SFX_BASE i); [discriminate | exact Hi | exact H]|].
  split; [intros Hi H; apply (clip_object_wrap DATA_MUSIC_GAME i); [discriminate | exact Hi | exact H]|].
  repeat split.
  - intros ->. reflexivity.
  - intros ->. reflexivity.
  - intros data e -> Hc. ok_steps. rewrite Hc. reflexivity.
  - intros data e -> Hc. ok_steps. rewrite Hc. reflexivity.
  - intros data wav -> Hc. ok_steps. rewrite Hc. reflexivity.
  - intros data mid -> Hc. ok_steps. rewrite Hc. reflexivity.
  - intros e H. destruct (get_object ds sound) as [[data|]| |];
      try discriminate H; [|exact H].
    exfalso. revert H. ok_steps.
    destruct (ConvertorSFX2WAV data (-32)%Z); discriminate.
  - intros e H. destruct (get_object ds music) as [[data|]| |];
      try discriminate H; [|exact H].
    exfalso. revert H. ok_steps.
    destruct (ConvertorXMI2MID data); discriminate.
Qed.

(** ** check *)

Lemma check_defaults_found check_file path names file_path :
  check_defaults check_file path names = Some file_path ->
  check_file file_path = true /\
  exists name, name ∈ names /\
               file_path = String.append path (String.append "/" name).
Proof.
  induction names as [|name names IH]; [discriminate|].
  cbn [check_defaults].
  destruct (check_file (String.append path (String.append "/" name))) eqn:E.
  - intros [= <-]. split; [exact E|]. exists name. split; [left|reflexivity].
  - intros H. destruct (IH H) as (Hf & name' & Hin & ->).
    split; [exact Hf|]. exists name'. split; [right; exact Hin|reflexivity].
Qed.

Lemma check_defaults_none check_file path names :
  check_defaults check_file path names = None ->
  forall name, name ∈ names ->
    check_file (String.append path (String.append "/" name)) = false.
Proof.
  induction names as [|name names IH]; intros H name' Hin.
  - inversion Hin.
  - cbn [check_defaults] in H.
    destruct (check_file (String.append path (String.append "/" name))) eqn:E;
      [discriminate H|].
    apply elem_of_cons in Hin as [->|Hin]; [exact E|apply (IH H _ Hin)].
Qed.

(** X17: when [check] succeeds, the path it leaves names a file that
    is there: the path as given, or else the path with one of the four
    default file names appended; when it fails, the path is unchanged
    and neither it nor any of the four candidates is a file. *)
Theorem check_path (check_file : string -> bool) (path : string) :
  let result := check check_file path in
  (result.1 = true ->
   check_file result.2 = true /\
   (result.2 = path \/
    check_file path = false /\
    exists name, name ∈ default_file_names /\
                 result.2 = String.append path (String.append "/" name))) /\
  (result.1 = false ->
   result.2 = path /\ check_file path = false /\
   forall name, name ∈ default_file_names ->
     check_file (String.append path (String.append "/" name)) = false).
Proof.
  unfold check. destruct (check_file path) eqn:Efile; cbn [fst snd].
  - split; [auto|discriminate].
  - destruct (check_defaults check_file path default_file_names) as [file_path|] eqn:E;
      cbn [fst snd].
    + split; [|discriminate]. intros _.
      destruct (check_defaults_found _ _ _ _ E) as (Hf & name & Hin & ->).
      split; [exact Hf|]. right. split; [reflexivity|]. exists name. auto.
    + split; [discriminate|]. intros _. split; [reflexivity|]. split; [reflexivity|].
      apply (check_defaults_none _ _ _ E).
Qed.

(** Glyph 0 of the font of [armless_source] comes back as the mask. *)
Lemma get_sprite_parts_slots_witness :
  get_sprite_parts example_count example_separate example_stick
    armless_source AssetFont 0 = Ok (Some (one_pixel_decoded 0), None) /\
  @None Sprite = None /\
  exists s, Some (one_pixel_decoded 0) = Some s /\
            SpriteDosTransparent one_pixel example_palette 0 = Ok s.
Proof.
  assert (H : get_sprite_parts example_count example_separate example_stick
                armless_source AssetFont 0 = Ok (Some (one_pixel_decoded 0), None))
    by (vm_compute; reflexivity).
  split; [exact H|]. revert H.
  apply (get_sprite_parts_slots example_count example_separate example_stick
           armless_source AssetFont 0 example_palette one_pixel
           (Some (one_pixel_decoded 0)) None).
  - unfold example_count. lia.
  - vm_compute. reflexivity.
  - vm_compute. reflexivity.
  - discriminate.
  - intros [H _]. discriminate H.
Defined.

(** Serf torso 0 of [armless_source]: the torso decodes, the arms are
    absent. *)
Lemma serf_torso_absent_arms_witness :
  0 < example_count AssetSerfTorso /\
  get_dos_palette armless_source 3 = Ok (Some example_palette) /\
  get_object armless_source (2500 + 0) = Ok (Some one_pixel) /\
  SpriteDosTransparent one_pixel example_palette 64 = Ok (one_pixel_decoded 64) /\
  SpriteDosTransparent one_pixel example_palette 72 = Ok (one_pixel_decoded 72) /\
  get_object armless_source (DATA_SERF_ARMS + 0) = Ok None /\
  get_sprite_parts example_count example_separate example_stick
    armless_source AssetSerfTorso 0 = Undefined NullDereference.
Proof.
  assert (H1 : 0 < example_count AssetSerfTorso) by (unfold example_count; lia).
  assert (H2 : get_dos_palette armless_source 3 = Ok (Some example_palette))
    by (vm_compute; reflexivity).
  assert (H3 : get_object armless_source (2500 + 0) = Ok (Some one_pixel))
    by (vm_compute; reflexivity).
  assert (H4 : SpriteDosTransparent one_pixel example_palette 64
               = Ok (one_pixel_decoded 64)) by (vm_compute; reflexivity).
  assert (H5 : SpriteDosTransparent one_pixel example_palette 72
               = Ok (one_pixel_decoded 72)) by (vm_compute; reflexivity).
  assert (H6 : get_object armless_source (DATA_SERF_ARMS + 0) = Ok None)
    by (vm_compute; reflexivity).
  repeat (split; [assumption|]).
  refine (serf_torso_absent_arms example_count example_separate example_stick
            armless_source 0 example_palette one_pixel
            (one_pixel_decoded 64) (one_pixel_decoded 72) _
            H1 H2 H3 H4 H5 _ H6).
  vm_compute. reflexivity.
Defined.

(** ** load *)

(** ** What a load that returns has done *)






Lemma encode_entries_length es : length (encode_entries es) = 8 * length es.
Proof. induction es as [|e es IH]; [reflexivity|]. simpl. lia. Qed.

Lemma encode_index_length es : length (encode_index es) = 4 + 8 * length es.
Proof.
  unfold encode_index. rewrite length_app, encode_entries_length. reflexivity.
Qed.

(** X19: [load] on an uncompressed archive that starts with the index
    of at least 3767 records, the second of which names the animation
    table within the archive, returns; the data source it leaves holds
    the archive and the table of the placeholder and the records, moved
    up by one and fixed up; it returns true exactly when the big-endian
    prefix of the animation table equals the size of the table and
    [load_animation_table] accepts the bytes after the prefix. *)
Theorem load_encoded_archive
    (UnpackerTPWM : Buffer -> outcome Buffer)
    (load_animation_table : Buffer -> bool)
    (es : list DataEntry) (rest : list byte) (e2 : DataEntry) (exn : exception) :
  let bytes := encode_index es ++ rest in
  let table := take (N.to_nat (size e2)) (drop (N.to_nat (offset e2)) bytes) in
  (N.of_nat (length es) < 4294967296)%N ->
  Forall entry_fits es ->
  3767 <= length es ->
  es !! 1 = Some e2 ->
  offset e2 <> 0%N ->
  N.to_nat (offset e2) + N.to_nat (size e2) <= length bytes ->
  (4 <= size e2)%N ->
  UnpackerTPWM (new_buffer bytes EndianessLittle) = Throw exn ->
  exists l ds,
    load true (Ok (new_buffer bytes EndianessLittle)) UnpackerTPWM
         load_animation_table = Ok l /\
    source l = Some ds /\
    data (spae ds) = bytes /\
    length (entries ds) = S (length es) /\
    (forall k, ~ fixed_position (S k) -> entries ds !! S k = es !! k) /\
    (loaded l = true <->
     size e2 = le_value (rev (take 4 table)) /\
     load_animation_table (new_buffer (drop 4 table) EndianessBig) = true).
Proof.
  intros bytes table Hcount Hfit Hlen He2 Hoff Hrange Hsize Hunp.
  pose proof (read_entries_encode_index_run es rest Hcount Hfit) as Hread.
  fold bytes in Hread.
  destruct (fixup_origin ({| offset := 0; size := 0 |} :: es))
    as (es' & Hfix & _); [simpl; lia|].
  destruct (fixup_keeps_lookup _ _ Hfix) as [Hlen' Hkeep].
  set (spae' := {| data := bytes; unread := rest; endianess := EndianessLittle |}).
  fold spae' in Hread.
  assert (Hobj : get_object {| spae := spae'; entries := es' |}
                   DATA_SERF_ANIMATION_TABLE
                 = Ok (Some (new_buffer table EndianessLittle))).
  { unfold get_object. cbn [entries spae].
    change DATA_SERF_ANIMATION_TABLE with 2.
    destruct (decide (length es' <= 2)) as [Hle|_];
      [rewrite Hlen' in Hle; simpl in Hle; lia|].
    rewrite (Hkeep 2), (lookup_cons_ne_0 _ _ 2) by
      (try lia; unfold fixed_position; intros [(i & j & _ & _ & E)|H0]; lia).
    cbn [pred]. rewrite He2. rewrite decide_False by exact Hoff.
    unfold get_subbuffer. rewrite decide_True by exact Hrange. reflexivity. }
  assert (Hsz : get_size (new_buffer table EndianessLittle) = N.to_nat (size e2)).
  { unfold get_size, new_buffer, table. cbn [data].
    rewrite length_take, length_drop. lia. }
  pose proof (load_animation_check true (Ok (new_buffer bytes EndianessLittle))
                UnpackerTPWM load_animation_table
                (new_buffer bytes EndianessLittle) (new_buffer bytes EndianessLittle)
                spae' _ es' _ eq_refl eq_refl
                ltac:(rewrite Hunp; reflexivity) Hread Hfix Hobj
                ltac:(rewrite Hsz; lia)) as Hload.
  cbv zeta in Hload. rewrite Hsz, N2Nat.id in Hload.
  change (data (new_buffer table EndianessLittle)) with table in Hload.
  eexists _, {| spae := spae'; entries := es' |}.
  split; [exact Hload|].
  destruct (decide (size e2 = le_value (rev (take 4 table)))) as [Heq|Hne];
    cbn [source loaded entries spae].
  - split; [reflexivity|]. split; [reflexivity|].
    split; [rewrite Hlen'; reflexivity|]. split.
    + intros k Hk. rewrite (Hkeep (S k) Hk). reflexivity.
    + split; [intros H; split; [exact Heq | exact H] | intros [_ H]; exact H].
  - split; [reflexivity|]. split; [reflexivity|].
    split; [rewrite Hlen'; reflexivity|]. split.
    + intros k Hk. rewrite (Hkeep (S k) Hk). reflexivity.
    + split; [discriminate | intros [H _]; contradiction].
Qed.

(** The archive of [example_index] and the table that counts its own
    prefix. *)
Lemma load_encoded_archive_witness :
  let bytes := encode_index example_index ++ (B <$> table_prefix_whole) in
  let table := take (N.to_nat 6) (drop (N.to_nat 30140) bytes) in
  exists l ds,
    load true (Ok (new_buffer bytes EndianessLittle))
         (fun _ => Throw BufferRange) (fun _ => true) = Ok l /\
    source l = Some ds /\
    data (spae ds) = bytes /\
    length (entries ds) = S (length example_index) /\
    (forall k, ~ fixed_position (S k) -> entries ds !! S k = example_index !! k) /\
    (loaded l = true <->
     6%N = le_value (rev (take 4 table)) /\ true = true).
Proof.
  assert (Hlen : length example_index = 3767).
  { unfold example_index. rewrite length_app, repeat_length. reflexivity. }
  apply (load_encoded_archive (fun _ => Throw BufferRange) (fun _ => true)
           example_index (B <$> table_prefix_whole)
           {| offset := 30140; size := 6 |} BufferRange).
  - rewrite Hlen. vm_compute. reflexivity.
  - unfold example_index. apply Forall_app. split.
    + repeat constructor.
    + apply Forall_forall. intros e He. apply list_elem_of_In in He.
      apply repeat_spec in He. subst e. split; reflexivity.
  - rewrite Hlen. lia.
  - reflexivity.
  - discriminate.
  - rewrite length_app, encode_index_length, Hlen, length_fmap.
    cbn [offset size table_prefix_whole length]. lia.
  - cbn [size]. lia.
  - reflexivity.
Defined.

(** ** Collections *)

(** ** Collection: what allocate, get_or_insert and erase keep *)

Section DenseCollections.

Variable T : Type.
Variable new_T : N -> T.

Lemma min_of_list (x : N) (rest : list N) :
  foldr N.min x rest ∈ x :: rest /\
  forall y, y ∈ x :: rest -> (foldr N.min x rest <= y)%N.
Proof.
  induction rest as [|z rest [IHin IHle]]; cbn [foldr].
  - split; [left|]. intros y Hy. apply list_elem_of_singleton in Hy as ->. lia.
  - split.
    + destruct (N.min_spec z (foldr N.min x rest)) as [[_ ->]|[_ ->]].
      * right. left.
      * apply elem_of_cons in IHin as [E|Hin]; [rewrite E; left|].
        right. right. exact Hin.
    + intros y Hy. apply elem_of_cons in Hy as [->|Hy].
      * pose proof (IHle x ltac:(left)). lia.
      * apply elem_of_cons in Hy as [->|Hy]; [lia|].
        pose proof (IHle y ltac:(right; exact Hy)). lia.
Qed.

Lemma begin_None (s : gset N) : Collection.begin s = None <-> s = ∅.
Proof.
  unfold Collection.begin. split.
  - destruct (elements s) eqn:E; [|discriminate].
    intros _. apply leibniz_equiv, elements_empty_iff. exact E.
  - intros ->. rewrite elements_empty. reflexivity.
Qed.

Lemma begin_Some (s : gset N) (m : N) :
  Collection.begin s = Some m -> m ∈ s /\ forall y, y ∈ s -> (m <= y)%N.
Proof.
  unfold Collection.begin. destruct (elements s) as [|x rest] eqn:E; [discriminate|].
  intros [= <-]. destruct (min_of_list x rest) as [Hin Hle]. rewrite <- E in Hin.
  split; [apply elem_of_elements, Hin|].
  intros y Hy. apply Hle. rewrite <- E. apply elem_of_elements, Hy.
Qed.

Lemma incr_below (n : N) :
  (n < Collection.UINT_MAX)%N -> Collection.incr n = (n + 1)%N.
Proof.
  unfold Collection.incr, Collection.UINT_MAX. intros H.
  apply N.mod_small. lia.
Qed.

Lemma dense_empty : Collection.dense T (Collection.empty_collection T).
Proof.
  unfold Collection.dense, Collection.empty_collection, Collection.UINT_MAX. cbn.
  split; [lia|]. split; [|split].
  - intros i [x Hx]. rewrite lookup_empty in Hx. discriminate Hx.
  - intros i Hi. set_solver.
  - intros i Hi. lia.
Qed.

Lemma dense_allocate c :
  Collection.dense T c -> Collection.dense T (Collection.allocate T new_T c).2.
Proof.
  intros (Hmax & Hlive & Hfr & Hcover). unfold Collection.allocate.
  destruct (Collection.begin (Collection.free_object_indexes T c)) as [m|] eqn:E.
  - apply begin_Some in E as [Hm _]. destruct (Hfr m Hm) as [Hlt Hnone].
    unfold Collection.dense. cbn. split; [exact Hmax|]. split; [|split].
    + intros i Hi. destruct (decide (i = m)) as [->|Hne]; [exact Hlt|].
      rewrite lookup_insert_ne in Hi by congruence. apply Hlive, Hi.
    + intros i Hi. apply elem_of_difference in Hi as [Hi Hne].
      destruct (Hfr i Hi) as [Hl Hn]. split; [exact Hl|].
      rewrite lookup_insert_ne by set_solver. exact Hn.
    + intros i Hi. destruct (decide (i = m)) as [->|Hne].
      * left. rewrite lookup_insert_eq. eauto.
      * destruct (Hcover i Hi) as [Hl|Hf].
        -- left. rewrite lookup_insert_ne by congruence. exact Hl.
        -- right. apply elem_of_difference. split; [exact Hf|].
           rewrite elem_of_singleton. exact Hne.
  - apply begin_None in E.
    destruct (decide (Collection.last_object_index T c = Collection.UINT_MAX))
      as [Hfull|Hroom]; [cbn [snd]; unfold Collection.dense; auto|].
    unfold Collection.dense. cbn. rewrite incr_below by lia.
    split; [lia|]. split; [|split].
    + intros i Hi.
      destruct (decide (i = Collection.last_object_index T c)) as [->|Hne]; [lia|].
      rewrite lookup_insert_ne in Hi by congruence. apply Hlive in Hi. lia.
    + intros i Hi. rewrite E in Hi. set_solver.
    + intros i Hi.
      destruct (decide (i = Collection.last_object_index T c)) as [->|Hne].
      * left. rewrite lookup_insert_eq. eauto.
      * destruct (Hcover i ltac:(lia)) as [Hl|Hf].
        -- left. rewrite lookup_insert_ne by congruence. exact Hl.
        -- right. exact Hf.
Qed.

Lemma dense_erase c index :
  Collection.dense T c -> Collection.dense T (Collection.erase T index c).
Proof.
  intros (Hmax & Hlive & Hfr & Hcover). unfold Collection.erase.
  destruct (Collection.objects T c !! index) as [o|] eqn:E;
    [|unfold Collection.dense; auto].
  pose proof (Hlive index ltac:(eauto)) as Hlt.
  rewrite decide_False by lia.
  unfold Collection.dense. cbn. split; [exact Hmax|]. split; [|split].
  - intros i Hi. destruct (decide (i = index)) as [->|Hne].
    + rewrite lookup_delete_eq in Hi. destruct Hi as [? Hi]. discriminate Hi.
    + rewrite lookup_delete_ne in Hi by congruence. apply Hlive, Hi.
  - intros i Hi. apply elem_of_union in Hi as [Hi|Hi].
    + apply elem_of_singleton in Hi as ->. split; [exact Hlt|].
      apply lookup_delete_eq.
    + destruct (Hfr i Hi) as [Hl Hn]. split; [exact Hl|].
      destruct (decide (i = index)) as [->|Hne]; [apply lookup_delete_eq|].
      rewrite lookup_delete_ne by congruence. exact Hn.
  - intros i Hi. destruct (decide (i = index)) as [->|Hne]; [right; apply elem_of_union; left; apply elem_of_singleton; reflexivity|].
    destruct (Hcover i Hi) as [Hl|Hf].
    + left. rewrite lookup_delete_ne by congruence. exact Hl.
    + right. apply elem_of_union. right. exact Hf.
Qed.

Lemma dense_get_or_insert c index :
  Collection.dense T c ->
  (index <= Collection.last_object_index T c)%N ->
  (index < Collection.UINT_MAX)%N ->
  Collection.dense T (Collection.get_or_insert T new_T index c).2.
Proof.
  intros (Hmax & Hlive & Hfr & Hcover) Hle Hlt. unfold Collection.get_or_insert.
  destruct (Collection.objects T c !! index) as [o|] eqn:E.
  - pose proof (Hlive index ltac:(eauto)) as Hl.
    rewrite decide_False by lia. cbn. unfold Collection.dense. cbn. auto.
  - destruct (decide (Collection.last_object_index T c <= index)%N) as [Hge|Hbelow].
    + assert (index = Collection.last_object_index T c) as Heq by lia.
      unfold Collection.indexes. rewrite Heq, Nat.sub_diag. cbn [seq fmap list_fmap foldl].
      unfold Collection.dense. cbn. rewrite incr_below by lia.
      split; [lia|]. split; [|split].
      * intros i Hi.
        destruct (decide (i = Collection.last_object_index T c)) as [->|Hne]; [lia|].
        rewrite lookup_insert_ne in Hi by congruence. apply Hlive in Hi. lia.
      * intros i Hi. apply elem_of_difference in Hi as [Hi Hne].
        destruct (Hfr i Hi) as [Hl Hn]. split; [lia|].
        rewrite lookup_insert_ne by set_solver. exact Hn.
      * intros i Hi.
        destruct (decide (i = Collection.last_object_index T c)) as [->|Hne].
        -- left. rewrite lookup_insert_eq. eauto.
        -- destruct (Hcover i ltac:(lia)) as [Hl|Hf].
           ++ left. rewrite lookup_insert_ne by congruence. exact Hl.
           ++ right. apply elem_of_difference. split; [exact Hf|].
              rewrite elem_of_singleton. exact Hne.
    + unfold Collection.dense. cbn. split; [exact Hmax|]. split; [|split].
      * intros i Hi. destruct (decide (i = index)) as [->|Hne]; [lia|].
        rewrite lookup_insert_ne in Hi by congruence. apply Hlive, Hi.
      * intros i Hi. apply elem_of_difference in Hi as [Hi Hne].
        destruct (Hfr i Hi) as [Hl Hn]. split; [exact Hl|].
        rewrite lookup_insert_ne by set_solver. exact Hn.
      * intros i Hi. destruct (decide (i = index)) as [->|Hne].
        -- left. rewrite lookup_insert_eq. eauto.
        -- destruct (Hcover i Hi) as [Hl|Hf].
           ++ left. rewrite lookup_insert_ne by congruence. exact Hl.
           ++ right. apply elem_of_difference. split; [exact Hf|].
              rewrite elem_of_singleton. exact Hne.
Qed.

Lemma dense_run_calls : forall ops c,
  Collection.dense T c -> Collection.skip_nothing T new_T c ops ->
  Collection.dense T (foldl (Collection.run_call T new_T) c ops).
Proof.
  induction ops as [|op ops IH]; intros c Hc Hops; [exact Hc|].
  destruct Hops as [Hop Hrest]. cbn [foldl]. apply IH; [|exact Hrest].
  destruct op as [|index|index]; cbn [Collection.run_call].
  - apply dense_allocate, Hc.
  - destruct Hop as [Hle Hlt]. apply dense_get_or_insert; assumption.
  - apply dense_erase, Hc.
Qed.

End DenseCollections.

(** X20: a collection that is only ever changed by allocate(), erase()
    and by get_or_insert() at indexes not beyond [last_object_index]
    (and below UINT_MAX) stays dense: [last_object_index] does not
    wrap, every index below it is either live or free, never both, and
    no live or free index is at or above it. *)
Theorem dense_calls (T : Type) (new_T : N -> T) (ops : list Collection.call) :
  Collection.skip_nothing T new_T (Collection.empty_collection T) ops ->
  Collection.dense T (Collection.run_calls T new_T ops).
Proof.
  intros Hops. apply dense_run_calls; [apply dense_empty | exact Hops].
Qed.

Lemma dense_calls_witness :
  Collection.skip_nothing N id (Collection.empty_collection N)
    Collection.example_calls_mixed /\
  Collection.dense N (Collection.run_calls N id Collection.example_calls_mixed).
Proof.
  assert (H : Collection.skip_nothing N id (Collection.empty_collection N)
                Collection.example_calls_mixed).
  { vm_compute. repeat split; discriminate. }
  split; [exact H | exact (dense_calls N id Collection.example_calls_mixed H)].
Defined.

Section CollectionCalls.

Variable T : Type.
Variable new_T : N -> T.

Lemma at_index_lookup (c : Collection.Collection T) i :
  Collection.at_index T c i = Collection.objects T c !! i.
Proof.
  unfold Collection.at_index, Collection.exists_.
  destruct (Collection.objects T c !! i) eqn:E.
  - rewrite bool_decide_eq_true_2 by eauto. reflexivity.
  - rewrite bool_decide_eq_false_2; [reflexivity|]. intros [x Hx]. discriminate Hx.
Qed.

Lemma gap_free (index : N) (l : list N) : forall s : gset N,
  l <> [] -> foldl (fun free (_ : N) => {[index]} ∪ free) s l = {[index]} ∪ s.
Proof.
  induction l as [|x l IH]; intros s Hl; [contradiction|]. cbn [foldl].
  destruct l as [|y l]; [reflexivity|].
  rewrite IH by discriminate. apply leibniz_equiv.
  rewrite (assoc (∪)), (idemp (∪)). reflexivity.
Qed.

Lemma erase_live_facts (c : Collection.Collection T) (index : N) :
  Collection.dense T c ->
  is_Some (Collection.at_index T c index) ->
  Collection.free_object_indexes T (Collection.erase T index c)
  = {[index]} ∪ Collection.free_object_indexes T c /\
  Collection.last_object_index T (Collection.erase T index c)
  = Collection.last_object_index T c /\
  Collection.objects T (Collection.erase T index c)
  = delete index (Collection.objects T c).
Proof.
  intros (Hmax & Hlive & Hfr & Hcover). rewrite at_index_lookup. intros [o Ho].
  unfold Collection.erase. rewrite Ho.
  pose proof (Hlive index ltac:(eauto)) as Hlt.
  rewrite decide_False by lia. auto.
Qed.

End CollectionCalls.

(** X21: in a dense collection allocate() returns null only when no
    index is free and [last_object_index] is UINT_MAX, and then changes
    nothing; otherwise it hands out an index that was not live, the
    least free index if there is one and [last_object_index] if not,
    makes it live and grows the collection by one object. *)
Theorem allocate_fresh (T : Type) (new_T : N -> T) (c : Collection.Collection T) :
  Collection.dense T c ->
  match Collection.allocate T new_T c with
  | (None, c') =>
      c' = c /\ Collection.free_object_indexes T c = ∅ /\
      Collection.last_object_index T c = Collection.UINT_MAX
  | (Some o, c') =>
      exists i, o = new_T i /\
        Collection.at_index T c i = None /\
        Collection.at_index T c' i = Some o /\
        (forall j, j <> i -> Collection.at_index T c' j = Collection.at_index T c j) /\
        Collection.size T c' = S (Collection.size T c) /\
        (i ∈ Collection.free_object_indexes T c /\
         (forall j, j ∈ Collection.free_object_indexes T c -> (i <= j)%N)
         \/ Collection.free_object_indexes T c = ∅ /\
            i = Collection.last_object_index T c)
  end.
Proof.
  intros (Hmax & Hlive & Hfr & Hcover). unfold Collection.allocate.
  destruct (Collection.begin (Collection.free_object_indexes T c)) as [m|] eqn:E.
  - apply begin_Some in E as [Hm Hmin]. destruct (Hfr m Hm) as [_ Hnone].
    exists m. rewrite !at_index_lookup. cbn.
    split; [reflexivity|]. split; [exact Hnone|].
    split; [apply lookup_insert_eq|]. split.
    + intros j Hj. rewrite !at_index_lookup. cbn.
      apply lookup_insert_ne. congruence.
    + split; [|left; auto].
      unfold Collection.size. cbn. apply map_size_insert_None, Hnone.
  - apply begin_None in E.
    destruct (decide (Collection.last_object_index T c = Collection.UINT_MAX))
      as [Hfull|Hroom]; [auto|].
    assert (Hnone : Collection.objects T c !! Collection.last_object_index T c = None).
    { destruct (Collection.objects T c !! Collection.last_object_index T c) eqn:El;
        [|reflexivity].
      pose proof (Hlive _ ltac:(eauto)). lia. }
    exists (Collection.last_object_index T c). rewrite !at_index_lookup. cbn.
    split; [reflexivity|]. split; [exact Hnone|].
    split; [apply lookup_insert_eq|]. split.
    + intros j Hj. rewrite !at_index_lookup. cbn.
      apply lookup_insert_ne. congruence.
    + split; [|right; auto].
      unfold Collection.size. cbn. apply map_size_insert_None, Hnone.
Qed.

(** X22: erase() of an index that is not live changes nothing; erase()
    of a live index of a dense collection removes that object and no
    other, shrinks the collection by one and puts the index into the
    free set; [last_object_index] is never lowered. *)
Theorem erase_live (T : Type) (c : Collection.Collection T) (index : N) :
  Collection.dense T c ->
  let c' := Collection.erase T index c in
  (Collection.at_index T c index = None -> c' = c) /\
  (is_Some (Collection.at_index T c index) ->
   Collection.at_index T c' index = None /\
   (forall j, j <> index -> Collection.at_index T c' j = Collection.at_index T c j) /\
   S (Collection.size T c') = Collection.size T c /\
   Collection.free_object_indexes T c'
   = {[index]} ∪ Collection.free_object_indexes T c /\
   Collection.last_object_index T c' = Collection.last_object_index T c).
Proof.
  intros Hdense c'. unfold c'. split.
  - rewrite at_index_lookup. unfold Collection.erase. intros ->. reflexivity.
  - intros Hlive.
    destruct (erase_live_facts T c index Hdense Hlive) as (Hfree' & Hlast' & Hobj').
    rewrite at_index_lookup in Hlive.
    split; [rewrite at_index_lookup, Hobj'; apply lookup_delete_eq|]. split.
    + intros j Hj. rewrite !at_index_lookup, Hobj'.
      apply lookup_delete_ne. congruence.
    + split; [|auto]. unfold Collection.size. rewrite Hobj'.
      rewrite (map_size_delete_Some index (Collection.objects T c)) by exact Hlive.
      pose proof (map_size_ne_0_lookup_2 (Collection.objects T c) index Hlive).
      lia.
Qed.

(** X23: allocate() right after erase() of a live index that is below
    every free index hands that index out again. *)
Theorem erase_then_allocate (T : Type) (new_T : N -> T)
    (c : Collection.Collection T) (index : N) :
  Collection.dense T c ->
  is_Some (Collection.at_index T c index) ->
  (forall j, j ∈ Collection.free_object_indexes T c -> (index <= j)%N) ->
  (Collection.allocate T new_T (Collection.erase T index c)).1 = Some (new_T index).
Proof.
  intros Hdense Hlive Hmin.
  destruct (erase_live_facts T c index Hdense Hlive) as (Hfree' & _).
  assert (Hin : index ∈ ({[index]} ∪ Collection.free_object_indexes T c : gset N))
    by (apply elem_of_union; left; apply elem_of_singleton; reflexivity).
  unfold Collection.allocate.
  destruct (Collection.begin _) as [m|] eqn:E.
  - apply begin_Some in E as [Hm Hle]. rewrite Hfree' in Hm, Hle.
    assert (m = index) as ->; [|reflexivity].
    pose proof (Hle index Hin).
    apply elem_of_union in Hm as [Hm|Hm].
    + apply elem_of_singleton in Hm. exact Hm.
    + pose proof (Hmin m Hm). lia.
  - apply begin_None in E. rewrite Hfree' in E. rewrite E in Hin.
    exfalso. apply (not_elem_of_empty (C := gset N) index Hin).
Qed.

(** X24: get_or_insert() returns the object that is live at the index
    afterwards: the one that was there, or else a new one made for the
    index; no other object of the collection changes. *)
Theorem get_or_insert_lookup (T : Type) (new_T : N -> T)
    (c : Collection.Collection T) (index : N) :
  let result := Collection.get_or_insert T new_T index c in
  Collection.at_index T result.2 index = Some result.1 /\
  result.1 = default (new_T index) (Collection.at_index T c index) /\
  forall j, j <> index ->
    Collection.at_index T result.2 j = Collection.at_index T c j.
Proof.
  intros result. unfold result, Collection.get_or_insert.
  rewrite (at_index_lookup T c index).
  destruct (Collection.objects T c !! index) as [o|] eqn:E;
    case_decide; cbn [fst snd default]; rewrite at_index_lookup; cbn;
    (split; [first [exact E | apply lookup_insert_eq]|]);
    (split; [reflexivity|]); intros j Hj; rewrite !at_index_lookup; cbn;
    try reflexivity; apply lookup_insert_ne; congruence.
Qed.

(** X25: get_or_insert() beyond [last_object_index] of a dense
    collection makes the index live and puts that very index into the
    free set, while the skipped indexes from [last_object_index] up to
    it are neither live nor free afterwards. *)
Theorem get_or_insert_gap (T : Type) (new_T : N -> T)
    (c : Collection.Collection T) (index : N) :
  Collection.dense T c ->
  (Collection.last_object_index T c < index)%N ->
  let c' := (Collection.get_or_insert T new_T index c).2 in
  Collection.at_index T c' index = Some (new_T index) /\
  index ∈ Collection.free_object_indexes T c' /\
  forall j, (Collection.last_object_index T c <= j < index)%N ->
    Collection.at_index T c' j = None /\ j ∉ Collection.free_object_indexes T c'.
Proof.
  intros (Hmax & Hlive & Hfr & Hcover) Hgap c'. unfold c', Collection.get_or_insert.
  assert (Hnone : forall j, (Collection.last_object_index T c <= j)%N ->
                    Collection.objects T c !! j = None).
  { intros j Hj. destruct (Collection.objects T c !! j) eqn:E; [|reflexivity].
    pose proof (Hlive j ltac:(eauto)). lia. }
  rewrite (Hnone index) by lia. rewrite decide_True by lia.
  rewrite gap_free.
  2:{ unfold Collection.indexes.
      destruct (N.to_nat index - N.to_nat (Collection.last_object_index T c))
        eqn:E; [lia|discriminate]. }
  rewrite at_index_lookup. cbn.
  split; [apply lookup_insert_eq|].
  split; [apply elem_of_union; left; apply elem_of_singleton; reflexivity|].
  intros j Hj. rewrite at_index_lookup. cbn. split.
  - rewrite lookup_insert_ne by lia. apply Hnone. lia.
  - intros Hin. apply elem_of_union in Hin as [Hin|Hin].
    + apply elem_of_singleton in Hin. lia.
    + apply elem_of_difference in Hin as [Hin _]. destruct (Hfr j Hin). lia.
Qed.

(** [example_collection]: three objects allocated, the one at index 1
    erased. *)
Lemma example_collection_dense : Collection.dense N Collection.example_collection.
Proof.
  apply dense_run_calls; [apply dense_empty|]. vm_compute. auto.
Qed.

Lemma example_collection_live :
  is_Some (Collection.at_index N Collection.example_collection 2).
Proof. exists 2%N. vm_compute. reflexivity. Qed.

Lemma example_collection_free (j : N) :
  j ∈ Collection.free_object_indexes N Collection.example_collection -> (1 <= j)%N.
Proof.
  change (Collection.free_object_indexes N Collection.example_collection)
    with ({[1%N]} ∪ (∅ : gset N)).
  rewrite elem_of_union, elem_of_singleton, elem_of_empty. intros [->|[]]. lia.
Qed.

Lemma allocate_fresh_witness :
  match Collection.allocate N id Collection.example_collection with
  | (None, c') =>
      c' = Collection.example_collection /\
      Collection.free_object_indexes N Collection.example_collection = ∅ /\
      Collection.last_object_index N Collection.example_collection
      = Collection.UINT_MAX
  | (Some o, c') =>
      exists i, o = id i /\
        Collection.at_index N Collection.example_collection i = None /\
        Collection.at_index N c' i = Some o /\
        (forall j, j <> i ->
           Collection.at_index N c' j
           = Collection.at_index N Collection.example_collection j) /\
        Collection.size N c' = S (Collection.size N Collection.example_collection) /\
        (i ∈ Collection.free_object_indexes N Collection.example_collection /\
         (forall j, j ∈ Collection.free_object_indexes N Collection.example_collection
                    -> (i <= j)%N)
         \/ Collection.free_object_indexes N Collection.example_collection = ∅ /\
            i = Collection.last_object_index N Collection.example_collection)
  end.
Proof.
  exact (allocate_fresh N id Collection.example_collection example_collection_dense).
Defined.

Lemma erase_live_witness :
  Collection.at_index N (Collection.erase N 2 Collection.example_collection) 2 = None /\
  S (Collection.size N (Collection.erase N 2 Collection.example_collection))
  = Collection.size N Collection.example_collection /\
  Collection.free_object_indexes N (Collection.erase N 2 Collection.example_collection)
  = {[2%N]} ∪ Collection.free_object_indexes N Collection.example_collection.
Proof.
  destruct (erase_live N Collection.example_collection 2 example_collection_dense)
    as [_ H].
  destruct (H example_collection_live) as (H1 & _ & H2 & H3 & _).
  auto.
Defined.

Lemma erase_then_allocate_witness :
  (Collection.allocate N id
     (Collection.erase N 0 Collection.example_collection)).1 = Some (id 0%N).
Proof.
  apply (erase_then_allocate N id Collection.example_collection 0
           example_collection_dense).
  - exists 0%N. vm_compute. reflexivity.
  - intros j Hj. lia.
Defined.

Lemma get_or_insert_gap_witness :
  Collection.at_index N
    (Collection.get_or_insert N id 7 Collection.example_collection).2 7
  = Some (id 7%N) /\
  7%N ∈ Collection.free_object_indexes N
          (Collection.get_or_insert N id 7 Collection.example_collection).2 /\
  forall j, (Collection.last_object_index N Collection.example_collection <= j < 7)%N ->
    Collection.at_index N
      (Collection.get_or_insert N id 7 Collection.example_collection).2 j = None /\
    j ∉ Collection.free_object_indexes N
          (Collection.get_or_insert N id 7 Collection.example_collection).2.
Proof.
  apply (get_or_insert_gap N id Collection.example_collection 7
           example_collection_dense).
  vm_compute. reflexivity.
Defined.
